(** * bertCommon.h: shared helpers of the BERT plugins

    A shallow embedding of [plugin/common/bertCommon.h] and the properties
    its specification states about it.

    - machine integers are [Z] with the range checks and wrap-around written
      out ([Cxx]);
    - host memory is a list of bytes, a pointer into it an offset, and the
      null pointer [None];
    - a call that can throw, abort or run into undefined behaviour returns an
      [outcome]; a member function returns the object's new state with it;
    - the two conversion intrinsics of cuda_fp16.h are the IEEE 754
      conversions between binary32 and binary16, on object representations
      ([cuda_fp16]). *)

From Stdlib Require Import ZArith List Lia Bool.
From Stdlib.Strings Require String.
From Stdlib.Strings Require Import Byte.
From Stdlib.Floats Require SpecFloat.
Import ListNotations.
Import String.StringSyntax.
Delimit Scope string_scope with string.
Local Open Scope Z_scope.

(* ===================================================================== *)
(** ** The C++ machine model *)
(* ===================================================================== *)

Module Cxx.

(** Value of an unsigned [w]-bit integer expression: reduction modulo
    [2^w]. *)
Definition wrap (w x : Z) : Z := x mod 2 ^ w.

(** Conversion to a signed [w]-bit integer (two's complement). *)
Definition to_signed (w x : Z) : Z :=
  (x + 2 ^ (w - 1)) mod 2 ^ w - 2 ^ (w - 1).

Definition INT_MAX : Z := 2 ^ 31 - 1.
Definition PTRDIFF_MAX : Z := 2 ^ 63 - 1.

(** Exceptions this header throws itself or lets escape from [new]. *)
Inductive exception : Type :=
| runtime_error (what : String.string)
| invalid_argument (what : String.string)
| bad_array_new_length.

(** How a call ends. [Aborts] is process termination ([abort],
    [std::terminate]); [Undefined] is undefined behaviour (signed overflow,
    a read outside the source range). *)
Inductive outcome (A : Type) : Type :=
| Returns (a : A)
| Throws (e : exception)
| Aborts
| Undefined.
Arguments Returns {A} a.
Arguments Throws {A} e.
Arguments Aborts {A}.
Arguments Undefined {A}.

Definition bind {A B : Type} (m : outcome A) (k : A -> outcome B) : outcome B :=
  match m with
  | Returns a => k a
  | Throws e => Throws e
  | Aborts => Aborts
  | Undefined => Undefined
  end.

(** A [noexcept] function turns an escaping exception into
    [std::terminate]. *)
Definition noexcept {A : Type} (m : outcome A) : outcome A :=
  match m with
  | Throws _ => Aborts
  | other => other
  end.

(** The integer types at the rank of [int] or above.  (A narrower type is
    promoted to [int] before any arithmetic.) *)
Inductive IntType : Type := int32_t | uint32_t | int64_t | uint64_t.

Definition width (T : IntType) : Z :=
  match T with
  | int32_t | uint32_t => 32
  | int64_t | uint64_t => 64
  end.

Definition is_signed (T : IntType) : bool :=
  match T with
  | int32_t | int64_t => true
  | uint32_t | uint64_t => false
  end.

Definition min_value (T : IntType) : Z :=
  if is_signed T then - 2 ^ (width T - 1) else 0.

Definition max_value (T : IntType) : Z :=
  if is_signed T then 2 ^ (width T - 1) - 1 else 2 ^ width T - 1.

(** The result of one arithmetic operation in [T] whose mathematical value
    is [x]: an unsigned type wraps, signed overflow is undefined. *)
Definition arith (T : IntType) (x : Z) : outcome Z :=
  if is_signed T then
    if (min_value T <=? x) && (x <=? max_value T) then Returns x else Undefined
  else Returns (wrap (width T) x).

(** [new T[n]] with [sizeof(T) = elem_size] and [n] a signed 64-bit value:
    returns the byte size of the fresh array.  A negative or too large
    bound throws [std::bad_array_new_length]; exhaustion of the heap is
    not modelled. *)
Definition new_array (elem_size n : Z) : outcome Z :=
  if n <? 0 then Throws bad_array_new_length
  else if PTRDIFF_MAX <? n * elem_size then Throws bad_array_new_length
  else Returns (n * elem_size).

(** Host memory behind a pointer: [None] is [nullptr], [Some m] the bytes
    of the allocation the pointer addresses. *)
Definition pointer : Type := option (list byte).

Definition allocation_size (p : pointer) : Z :=
  match p with
  | None => 0
  | Some m => Z.of_nat (length m)
  end.

(** The [n] bytes from offset [pos] of [m], when they all lie inside. *)
Definition read_bytes (m : list byte) (pos n : Z) : option (list byte) :=
  if (0 <=? pos) && (0 <=? n) && (pos + n <=? Z.of_nat (length m))
  then Some (firstn (Z.to_nat n) (skipn (Z.to_nat pos) m))
  else None.

(** [std::copy_n(p, n, dest)] over bytes: reading nothing is fine from any
    pointer, reading past the allocation is undefined. *)
Definition copy_n (p : pointer) (n : Z) : option (list byte) :=
  match p with
  | None => if n =? 0 then Some [] else None
  | Some m => read_bytes m 0 n
  end.

End Cxx.

Notation "'let*' x ':=' m 'in' k" := (Cxx.bind m (fun x => k))
  (at level 10, x pattern, m at level 200, k at level 200).

(* ===================================================================== *)
(** ** The parts of the TensorRT and cuBLAS interfaces the header uses *)
(* ===================================================================== *)

Module nvinfer1.

(** [enum class DataType : int32_t] is declared in NvInferRuntime.h.  The
    enumerators are the ones this header names; [other raw] is a value of
    the underlying type that names none of them. *)
Module DataType.
Inductive t : Type :=
| kFLOAT | kHALF | kINT8 | kINT32 | kBOOL | kUINT8 | kFP8
| other (raw : Z).

(** [operator==] *)
Definition eqb (a b : t) : bool :=
  match a, b with
  | kFLOAT, kFLOAT | kHALF, kHALF | kINT8, kINT8 | kINT32, kINT32
  | kBOOL, kBOOL | kUINT8, kUINT8 | kFP8, kFP8 => true
  | other x, other y => x =? y
  | _, _ => false
  end.
End DataType.

(** [enum class PluginFieldType : int32_t] is declared in
    NvInferRuntimeCommon.h; same convention. *)
Module PluginFieldType.
Inductive t : Type :=
| kFLOAT16 | kFLOAT32 | kINT8 | kINT32
| other (raw : Z).
End PluginFieldType.

(** [class Weights { DataType type; void const* values; int64_t count; }] *)
Record Weights : Type := mkWeights {
  type : DataType.t;
  values : Cxx.pointer;
  count : Z
}.

(** [class Dims { int32_t nbDims; int32_t d[MAX_DIMS]; }] is declared in
    NvInferRuntimeBase.h.  [d] is the whole array: its length is the
    capacity [MAX_DIMS], of which the first [nbDims] entries are in use. *)
Module Dims.
Record t : Type := mk {
  nbDims : Z;
  d : list Z
}.
End Dims.

End nvinfer1.

Module cublas.

Inductive cublasStatus_t : Type :=
| CUBLAS_STATUS_SUCCESS
| CUBLAS_STATUS_NOT_INITIALIZED
| CUBLAS_STATUS_INVALID_VALUE.

Inductive cublasPointerMode_t : Type :=
| CUBLAS_POINTER_MODE_HOST
| CUBLAS_POINTER_MODE_DEVICE.

Inductive cublasMath_t : Type :=
| CUBLAS_DEFAULT_MATH
| CUBLAS_TENSOR_OP_MATH
| CUBLAS_PEDANTIC_MATH
| CUBLAS_TF32_TENSOR_OP_MATH.

(** A handle names a library context; the context carries the two modes
    the guard touches. *)
Definition cublasHandle_t : Type := nat.

Record context : Type := mkContext {
  pointerMode : cublasPointerMode_t;
  mathMode : cublasMath_t
}.

(** The library's state: the context behind every handle. *)
Definition library : Type := cublasHandle_t -> context.

Definition update (lib : library) (h : cublasHandle_t) (c : context) : library :=
  fun h' => if Nat.eqb h' h then c else lib h'.

(** Getters report the current mode, setters replace it; on a live handle
    all four succeed. *)
Definition cublasGetPointerMode (lib : library) (h : cublasHandle_t)
  : cublasStatus_t * cublasPointerMode_t :=
  (CUBLAS_STATUS_SUCCESS, pointerMode (lib h)).

Definition cublasGetMathMode (lib : library) (h : cublasHandle_t)
  : cublasStatus_t * cublasMath_t :=
  (CUBLAS_STATUS_SUCCESS, mathMode (lib h)).

Definition cublasSetPointerMode (lib : library) (h : cublasHandle_t)
  (mode : cublasPointerMode_t) : cublasStatus_t * library :=
  (CUBLAS_STATUS_SUCCESS,
   update lib h {| pointerMode := mode; mathMode := mathMode (lib h) |}).

Definition cublasSetMathMode (lib : library) (h : cublasHandle_t)
  (mode : cublasMath_t) : cublasStatus_t * library :=
  (CUBLAS_STATUS_SUCCESS,
   update lib h {| pointerMode := pointerMode (lib h); mathMode := mode |}).

End cublas.

Module cuda.

Inductive cudaError_t : Type :=
| cudaSuccess
| cudaErrorInvalidValue
| cudaErrorMemoryAllocation.

(** A device pointer is modelled by the bytes it addresses (none for a null
    pointer). *)
Definition device_ptr : Type := list byte.

(** [cudaMalloc(&dev, size)]: the status and the room of the fresh
    allocation, whose contents are indeterminate.  A size no object can
    have is refused; exhaustion of device memory is not modelled. *)
Definition cudaMalloc (size : Z) : cudaError_t * Z :=
  if Cxx.PTRDIFF_MAX <? size then (cudaErrorMemoryAllocation, 0)
  else (cudaSuccess, size).

(** [cudaMemcpy(dst, src + src_pos, count, kind)] into a destination with
    [room] bytes from [dst] on: the status and the [count] bytes now at
    [dst].  A range outside either allocation is undefined. *)
Definition cudaMemcpy (room : Z) (src : list byte) (src_pos count : Z)
  : Cxx.outcome (cudaError_t * list byte) :=
  if count <=? room then
    match Cxx.read_bytes src src_pos count with
    | Some bytes => Cxx.Returns (cudaSuccess, bytes)
    | None => Cxx.Undefined
    end
  else Cxx.Undefined.

End cuda.

(** Modelled from the spec: [PLUGIN_ASSERT] is a macro of
    common/checkMacrosPlugin.h, which is not among the sources.  The
    specification counts a failed assertion among the fatal failures,
    "reported by aborting immediately". *)
Definition PLUGIN_ASSERT (assertion : bool) : Cxx.outcome unit :=
  if assertion then Cxx.Returns tt else Cxx.Aborts.

(** Modelled from the spec: [PLUGIN_CUBLASASSERT], same header, same
    convention: any status but success is fatal. *)
Definition PLUGIN_CUBLASASSERT (status : cublas.cublasStatus_t) : Cxx.outcome unit :=
  match status with
  | cublas.CUBLAS_STATUS_SUCCESS => Cxx.Returns tt
  | _ => Cxx.Aborts
  end.

(** Modelled from the spec: [PLUGIN_CUASSERT], same header: an allocation or
    copy that reports an error is fatal, "aborting the process". *)
Definition PLUGIN_CUASSERT (status : cuda.cudaError_t) : Cxx.outcome unit :=
  match status with
  | cuda.cudaSuccess => Cxx.Returns tt
  | _ => Cxx.Aborts
  end.

(* ===================================================================== *)
(** ** bertCommon.h *)
(* ===================================================================== *)

Module bert.
Import Cxx nvinfer1 cublas.

Definition kSM_53 : Z := 53.
Definition kSM_70 : Z := 70.
Definition kSM_72 : Z := 72.
Definition kSM_75 : Z := 75.
Definition kSM_80 : Z := 80.
Definition kSM_86 : Z := 86.
Definition kSM_87 : Z := 87.
Definition kSM_89 : Z := 89.
Definition kSM_90 : Z := 90.

(** The number of threads per CTA: warps_m * warps_n * warps_k * 32. *)
Definition threadsPerCta128 : Z := 2 * 2 * 32.
Definition threadsPerCta384 : Z := 1 * 8 * 32.

(** The number of xmmas in the M dimension. *)
Definition xmmasM128 : Z := 4.
Definition xmmasM384 : Z := 24.

(** Packed mask size per batch. Layout is XMMAS_M * THREADS_PER_CTA. *)
Definition unfusedMaskSize : Z := 1.
Definition packedMaskSize64 : Z := xmmasM128 * threadsPerCta128.
Definition packedMaskSize96 : Z := xmmasM128 * threadsPerCta128.
Definition packedMaskSize128 : Z := xmmasM128 * threadsPerCta128.
Definition packedMaskSize384 : Z := xmmasM384 * threadsPerCta384.

(** The [size_t] constants are stored into the [int] local [packedSize]. *)
Definition getMHAMaskPackedSize (smVersion : Z) (dataType : DataType.t)
  (sequenceLength : Z) : Z :=
  let packedSize := to_signed 32 unfusedMaskSize in
  let isSmOK :=
    (smVersion =? kSM_75) || (smVersion =? kSM_80) || (smVersion =? kSM_86)
    || (smVersion =? kSM_87) || (smVersion =? kSM_90) in
  let isPrecisionOK :=
    DataType.eqb dataType DataType.kINT8 || DataType.eqb dataType DataType.kHALF in
  if isSmOK && isPrecisionOK then
    if sequenceLength =? 64 then to_signed 32 packedMaskSize64
    else if sequenceLength =? 96 then to_signed 32 packedMaskSize96
    else if sequenceLength =? 128 then to_signed 32 packedMaskSize128
    else if sequenceLength =? 384 then to_signed 32 packedMaskSize384
    else packedSize
  else packedSize.

(** The [switch] has no [default]; a value that matches no [case] falls
    through to [return 0]. *)
Definition getElementSize (t : DataType.t) : Z :=
  match t with
  | DataType.kINT32 => 4
  | DataType.kFLOAT => 4
  | DataType.kHALF => 2
  | DataType.kBOOL
  | DataType.kUINT8
  | DataType.kINT8
  | DataType.kFP8 => 1
  | DataType.other _ => 0
  end.

(** [w.count * getElementSize(type)]: the [uint32_t] size is converted to
    [int64_t] and the product is a signed 64-bit one. *)
Definition getWeightsSize (w : Weights) (type : DataType.t) : outcome Z :=
  arith int64_t (count w * getElementSize type).

(** [(a + b - 1) / b] in [IntType]: the sum, the difference and the
    quotient (truncated, as [/] is) are each a result in that type; dividing
    by zero is undefined. *)
Definition ceildiv (T : IntType) (a b : Z) : outcome Z :=
  let* sum := arith T (a + b) in
  let* numerator := arith T (sum - 1) in
  if b =? 0 then Undefined else arith T (Z.quot numerator b).

Definition alignTo (T : IntType) (a b : Z) : outcome Z :=
  let* q := ceildiv T a b in
  arith T (q * b).

(** *** CublasConfigHelper *)

Record CublasConfigHelper : Type := mkCublasConfigHelper {
  pm : cublasPointerMode_t;
  mm : cublasMath_t;
  cublas : cublasHandle_t
}.

(** The constructor, threading the library state through its four
    checked calls. *)
Definition CublasConfigHelper_ctor (lib : library) (cublas_ : cublasHandle_t)
  : outcome (CublasConfigHelper * library) :=
  let '(s1, pm_) := cublasGetPointerMode lib cublas_ in
  let* _ := PLUGIN_CUBLASASSERT s1 in
  let '(s2, mm_) := cublasGetMathMode lib cublas_ in
  let* _ := PLUGIN_CUBLASASSERT s2 in
  let '(s3, lib3) := cublasSetPointerMode lib cublas_ CUBLAS_POINTER_MODE_HOST in
  let* _ := PLUGIN_CUBLASASSERT s3 in
  let '(s4, lib4) := cublasSetMathMode lib3 cublas_ CUBLAS_TENSOR_OP_MATH in
  let* _ := PLUGIN_CUBLASASSERT s4 in
  Returns ({| pm := pm_; mm := mm_; cublas := cublas_ |}, lib4).

(** The destructor ignores the two statuses. *)
Definition CublasConfigHelper_dtor (this : CublasConfigHelper) (lib : library)
  : library :=
  let '(_, lib1) := cublasSetMathMode lib (cublas this) (mm this) in
  let '(_, lib2) := cublasSetPointerMode lib1 (cublas this) (pm this) in
  lib2.

(** How control leaves a block: off its end (or by [return]), or with an
    exception in flight. *)
Inductive exit : Type :=
| Normal
| Exceptional (e : exception).

(** A block [{ CublasConfigHelper helper(handle); body }].  The body is any
    code acting on the library; leaving the block either way runs the
    destructor of the constructed guard. *)
Definition guarded_scope (body : library -> library * exit)
  (lib : library) (handle : cublasHandle_t) : outcome (library * exit) :=
  let* (helper, lib1) := CublasConfigHelper_ctor lib handle in
  let '(lib2, how) := body lib1 in
  Returns (CublasConfigHelper_dtor helper lib2, how).

(** *** WeightsWithOwnership *)

Definition WeightsWithOwnership : Type := Weights.

(** The constructor clears [values] and [count]; it does not touch [type],
    which [Weights] leaves without an initial value. *)
Definition WeightsWithOwnership_ctor (indeterminate : DataType.t)
  : WeightsWithOwnership :=
  {| type := indeterminate; values := None; count := 0 |}.

(** Object representations: a [float] is four bytes, a [half] two. *)
Definition sizeof_float : Z := 4.
Definition sizeof_half : Z := 2.
Definition sizeof_char : Z := 1.
Definition float : Type := (byte * byte * byte * byte)%type.
Definition half : Type := (byte * byte)%type.

Definition defined {A : Type} (o : option A) : outcome A :=
  match o with
  | Some a => Returns a
  | None => Undefined
  end.

(** The bytes a pointer can be read through. *)
Definition pointee (p : pointer) : list byte :=
  match p with
  | Some m => m
  | None => []
  end.

(** [for (auto it = 0; it < src.count; it++)]: the counter is an [int],
    compared against the 64-bit [count]; a count above [INT_MAX] makes
    [it++] overflow before the loop can end. *)
Definition int_counter_reaches (n : Z) : outcome unit :=
  if INT_MAX <? n then Undefined else Returns tt.

Section conversions.

(** The two conversion intrinsics of cuda_fp16.h, on object
    representations. *)
Variable __half2float : half -> float.
Variable __float2half : float -> half.

(** [d[it] = __half2float(s[it])] for [n] elements; [None] when [s] is
    read past its end. *)
Fixpoint half2float_loop (n : nat) (s : list byte) : option (list byte) :=
  match n with
  | O => Some []
  | S n' =>
      match s with
      | b0 :: b1 :: s' =>
          match half2float_loop n' s' with
          | Some d =>
              let '(f0, f1, f2, f3) := __half2float (b0, b1) in
              Some (f0 :: f1 :: f2 :: f3 :: d)
          | None => None
          end
      | _ => None
      end
  end.

(** [d[it] = __float2half(s[it])] for [n] elements. *)
Fixpoint float2half_loop (n : nat) (s : list byte) : option (list byte) :=
  match n with
  | O => Some []
  | S n' =>
      match s with
      | b0 :: b1 :: b2 :: b3 :: s' =>
          match float2half_loop n' s' with
          | Some d =>
              let '(h0, h1) := __float2half (b0, b1, b2, b3) in
              Some (h0 :: h1 :: d)
          | None => None
          end
      | _ => None
      end
  end.

(** [void convertAndCopy(Weights const& src, DataType type)], for a [src]
    that is another object than [*this].  Returns the object's state when
    the call ends, and how it ends.  [type] and [count] are assigned first;
    [values] is assigned once [new] succeeded, and every element of the new
    array is written before the call returns. *)
Definition convertAndCopy (this : WeightsWithOwnership) (src : Weights)
  (type_ : DataType.t) : WeightsWithOwnership * outcome unit :=
  let this := {| type := type_; values := values this; count := count src |} in
  let destBuf : outcome (list byte) :=
    if DataType.eqb type_ DataType.kFLOAT then
      let* _ := new_array sizeof_float (count src) in
      if DataType.eqb (type src) DataType.kFLOAT then
        defined (copy_n (values src) (count src * sizeof_float))
      else
        let* _ := PLUGIN_ASSERT (DataType.eqb (type src) DataType.kHALF) in
        let* _ := int_counter_reaches (count src) in
        defined (half2float_loop (Z.to_nat (count src)) (pointee (values src)))
    else if DataType.eqb type_ DataType.kHALF then
      let* _ := new_array sizeof_half (count src) in
      if DataType.eqb (type src) DataType.kHALF then
        defined (copy_n (values src) (count src * sizeof_half))
      else
        let* _ := PLUGIN_ASSERT (DataType.eqb (type src) DataType.kFLOAT) in
        let* _ := int_counter_reaches (count src) in
        defined (float2half_loop (Z.to_nat (count src)) (pointee (values src)))
    else
      Throws (runtime_error "Unsupported DataType specified for plugin."%string)
  in
  match destBuf with
  | Returns d =>
      ({| type := type this; values := Some d; count := count this |}, Returns tt)
  | Throws e => (this, Throws e)
  | Aborts => (this, Aborts)
  | Undefined => (this, Undefined)
  end.

End conversions.

(** [char const*& srcBuf]: a position inside a serialized buffer. *)
Record cursor : Type := mkCursor {
  buffer : list byte;
  position : Z
}.

(** [void convertAndCopy(char const*& srcBuf, size_t count, DataType type)
    noexcept], the overload that reads raw bytes.  [count] is a [size_t]
    stored into the [int64_t] field. *)
Definition convertAndCopy_raw (this : WeightsWithOwnership) (srcBuf : cursor)
  (count_ : Z) (type_ : DataType.t)
  : WeightsWithOwnership * cursor * outcome unit :=
  let this := {| type := type_; values := values this;
                 count := to_signed 64 count_ |} in
  let copied : outcome (Z * list byte) :=
    let* nbBytes := getWeightsSize this type_ in
    let* _ := new_array sizeof_char nbBytes in
    let* destBuf := defined (read_bytes (buffer srcBuf) (position srcBuf) nbBytes) in
    Returns (nbBytes, destBuf)
  in
  match noexcept copied with
  | Returns (nbBytes, destBuf) =>
      ({| type := type this; values := Some destBuf; count := count this |},
       {| buffer := buffer srcBuf; position := position srcBuf + nbBytes |},
       Returns tt)
  | Throws e => (this, srcBuf, Throws e)
  | Aborts => (this, srcBuf, Aborts)
  | Undefined => (this, srcBuf, Undefined)
  end.

(** *** fieldTypeToDataType *)

Definition fieldTypeToDataType (ftype : PluginFieldType.t) : outcome DataType.t :=
  match ftype with
  | PluginFieldType.kFLOAT32 => Returns DataType.kFLOAT
  | PluginFieldType.kFLOAT16 => Returns DataType.kHALF
  | PluginFieldType.kINT32 => Returns DataType.kINT32
  | PluginFieldType.kINT8 => Returns DataType.kINT8
  | _ => Throws (invalid_argument "No corresponding datatype for plugin field type"%string)
  end.

(** *** volume *)

(** The iterator range [[d.d, d.d + d.nbDims)], when it lies inside the
    array. *)
Definition dims_range (dims : Dims.t) : option (list Z) :=
  if (0 <=? Dims.nbDims dims)
     && (Dims.nbDims dims <=? Z.of_nat (length (Dims.d dims)))
  then Some (firstn (Z.to_nat (Dims.nbDims dims)) (Dims.d dims))
  else None.

(** [std::accumulate(first, last, init, std::multiplies<int64_t>{})]: every
    step is a signed 64-bit product. *)
Fixpoint accumulate_multiplies (range : list Z) (init : Z) : outcome Z :=
  match range with
  | [] => Returns init
  | extent :: rest =>
      let* acc := arith int64_t (init * extent) in
      accumulate_multiplies rest acc
  end.

Definition volume (dims : Dims.t) : outcome Z :=
  let* range := defined (dims_range dims) in
  accumulate_multiplies range 1.

(** *** Device memory transfer helpers *)

(** The destination of a copy into host memory: [bytes] stored at offset
    [pos] of [m], when they fit. *)
Definition write_bytes (m : list byte) (pos : Z) (bytes : list byte)
  : option (list byte) :=
  if (0 <=? pos) && (pos + Z.of_nat (length bytes) <=? Z.of_nat (length m))
  then Some (firstn (Z.to_nat pos) m ++ bytes
             ++ skipn (Z.to_nat pos + length bytes) m)
  else None.

(** [T* deserToDev<T>(char const*& buffer, size_t nbElem)] with
    [sizeof(T) = sizeof_T]; [len] is a [size_t] product.  Returns the cursor
    and the bytes behind the new device pointer. *)
Definition deserToDev (sizeof_T : Z) (buffer_ : cursor) (nbElem : Z)
  : cursor * outcome cuda.device_ptr :=
  let len := wrap 64 (sizeof_T * nbElem) in
  let dev : outcome cuda.device_ptr :=
    let '(allocated, room) := cuda.cudaMalloc len in
    let* _ := PLUGIN_CUASSERT allocated in
    let* (copied, bytes) :=
      cuda.cudaMemcpy room (buffer buffer_) (position buffer_) len in
    let* _ := PLUGIN_CUASSERT copied in
    Returns bytes
  in
  match dev with
  | Returns bytes =>
      ({| buffer := buffer buffer_; position := position buffer_ + len |},
       Returns bytes)
  | failure => (buffer_, failure)
  end.

(** [void serFromDev<T>(char*& buffer, T const* data, size_t nbElem)]:
    [data] is the device memory read, the cursor's buffer the host memory
    written. *)
Definition serFromDev (sizeof_T : Z) (buffer_ : cursor) (data : cuda.device_ptr)
  (nbElem : Z) : cursor * outcome unit :=
  let len := wrap 64 (sizeof_T * nbElem) in
  let room := Z.of_nat (length (buffer buffer_)) - position buffer_ in
  let written : outcome (list byte) :=
    let* (copied, bytes) := cuda.cudaMemcpy room data 0 len in
    let* _ := PLUGIN_CUASSERT copied in
    defined (write_bytes (buffer buffer_) (position buffer_) bytes)
  in
  match written with
  | Returns host =>
      ({| buffer := host; position := position buffer_ + len |}, Returns tt)
  | Throws e => (buffer_, Throws e)
  | Aborts => (buffer_, Aborts)
  | Undefined => (buffer_, Undefined)
  end.

(** [T* devToDev<T>(T const* data, size_t nbElem)] *)
Definition devToDev (sizeof_T : Z) (data : cuda.device_ptr) (nbElem : Z)
  : outcome cuda.device_ptr :=
  let len := wrap 64 (sizeof_T * nbElem) in
  let '(allocated, room) := cuda.cudaMalloc len in
  let* _ := PLUGIN_CUASSERT allocated in
  let* (copied, bytes) := cuda.cudaMemcpy room data 0 len in
  let* _ := PLUGIN_CUASSERT copied in
  Returns bytes.

(** [void copyToDevice<T>(WeightsWithOwnership& hostWeights, size_t nbBytes,
    cuda_unique_ptr<T>& cudaWeights)]: returns what [cudaWeights] owns
    afterwards. *)
Definition copyToDevice (hostWeights : WeightsWithOwnership) (nbBytes : Z)
  (cudaWeights : cuda.device_ptr) : outcome cuda.device_ptr :=
  match values hostWeights with
  | Some host =>
      let '(allocated, room) := cuda.cudaMalloc nbBytes in
      let* _ := PLUGIN_CUASSERT allocated in
      let* (copied, bytes) := cuda.cudaMemcpy room host 0 nbBytes in
      let* _ := PLUGIN_CUASSERT copied in
      Returns bytes
  | None => Returns cudaWeights
  end.

End bert.

(* ===================================================================== *)
(** ** cuda_fp16.h: the conversion intrinsics *)
(* ===================================================================== *)

(** The header calls [__float2half] and [__half2float] of cuda_fp16.h, which
    is not part of the sources.  They are modelled after the CUDA Math API
    and IEEE 754: [__float2half] converts a binary32 number to binary16 in
    round-to-nearest-even mode, [__half2float] converts a binary16 number
    to binary32.  Numbers are object representations, little-endian; the
    rounding is [SpecFloat.binary_round].  A NaN is converted to the NaN
    with all significand bits set and the sign bit clear ([0x7FFF],
    [0x7FFFFFFF]), as the host implementation of cuda_fp16.hpp does;
    nothing proved below depends on what a NaN is converted to. *)
Module cuda_fp16.
Import SpecFloat.

Definition bits_of_byte (b : byte) : Z := Z.of_N (Byte.to_N b).

Definition byte_of_bits (z : Z) : byte :=
  match Byte.of_N (Z.to_N (z mod 2 ^ 8)) with
  | Some b => b
  | None => x00
  end.

Definition half_bits (h : bert.half) : Z :=
  let '(b0, b1) := h in bits_of_byte b0 + 2 ^ 8 * bits_of_byte b1.

Definition bits_half (z : Z) : bert.half :=
  (byte_of_bits z, byte_of_bits (z / 2 ^ 8)).

Definition float_bits (f : bert.float) : Z :=
  let '(b0, b1, b2, b3) := f in
  bits_of_byte b0 + 2 ^ 8 * bits_of_byte b1 + 2 ^ 16 * bits_of_byte b2
  + 2 ^ 24 * bits_of_byte b3.

Definition bits_float (z : Z) : bert.float :=
  (byte_of_bits z, byte_of_bits (z / 2 ^ 8), byte_of_bits (z / 2 ^ 16),
   byte_of_bits (z / 2 ^ 24)).

(** The number an interchange-format bit pattern stands for: [mw] bits of
    trailing significand, [ew] bits of biased exponent, one sign bit. *)
Definition decode (mw ew : Z) (bits : Z) : spec_float :=
  let M := bits mod 2 ^ mw in
  let E := (bits / 2 ^ mw) mod 2 ^ ew in
  let s := Z.odd (bits / 2 ^ (mw + ew)) in
  let bias := 2 ^ (ew - 1) - 1 in
  if E =? 2 ^ ew - 1 then
    if M =? 0 then S754_infinity s else S754_nan
  else if E =? 0 then
    match M with
    | Zpos m => S754_finite s m (1 - bias - mw)
    | _ => S754_zero s
    end
  else
    match 2 ^ mw + M with
    | Zpos m => S754_finite s m (E - bias - mw)
    | _ => S754_nan
    end.

(** The bit pattern of a number of the format. *)
Definition encode (mw ew : Z) (x : spec_float) : Z :=
  let bias := 2 ^ (ew - 1) - 1 in
  let sign (s : bool) := if s then 2 ^ (mw + ew) else 0 in
  match x with
  | S754_zero s => sign s
  | S754_infinity s => sign s + (2 ^ ew - 1) * 2 ^ mw
  | S754_nan => (2 ^ ew - 1) * 2 ^ mw + (2 ^ mw - 1)
  | S754_finite s m e =>
      if Zpos m <? 2 ^ mw then sign s + Zpos m
      else sign s + (e + bias + mw) * 2 ^ mw + (Zpos m - 2 ^ mw)
  end.

(** Rounding to the format of precision [prec] and exponent bound [emax],
    to nearest, ties to even. *)
Definition round_to (prec emax : Z) (x : spec_float) : spec_float :=
  match x with
  | S754_finite s m e => binary_round prec emax s m e
  | other => other
  end.

Definition __float2half (f : bert.float) : bert.half :=
  bits_half (encode 10 5 (round_to 11 16 (decode 23 8 (float_bits f)))).

Definition __half2float (h : bert.half) : bert.float :=
  bits_float (encode 23 8 (round_to 24 128 (decode 10 5 (half_bits h)))).

End cuda_fp16.

(* ===================================================================== *)
(** ** Vocabulary of the properties *)
(* ===================================================================== *)

Import Cxx nvinfer1 cublas bert SpecFloat.

(** The generations and types the fused attention path supports. *)
Definition isSmOK (smVersion : Z) : Prop := In smVersion [75; 80; 86; 87; 90].

Definition isPrecisionOK (dataType : DataType.t) : Prop :=
  dataType = DataType.kINT8 \/ dataType = DataType.kHALF.

(** [a + b - 1] is computed in [IntType] without overflow: in a signed type
    the intermediate sum [a + b] must fit, in an unsigned type only the
    value [a + b - 1] (a sum that wraps to 0 is brought back by the
    subtraction). *)
Definition sum_fits (T : IntType) (a b : Z) : Prop :=
  if is_signed T then a + b <= max_value T else a + b - 1 <= max_value T.

(** The two overloads of [convertAndCopy] as one family of conversion
    operations on a [WeightsWithOwnership]. *)
Inductive conversion : Type :=
| Typed (src : Weights) (type_ : DataType.t)
| Raw (srcBuf : cursor) (count_ : Z) (type_ : DataType.t).

Definition destination (op : conversion) : DataType.t :=
  match op with
  | Typed _ type_ => type_
  | Raw _ _ type_ => type_
  end.

Definition convert (half2float : half -> float) (float2half : float -> half)
  (this : WeightsWithOwnership) (op : conversion)
  : WeightsWithOwnership * outcome unit :=
  match op with
  | Typed src type_ => convertAndCopy half2float float2half this src type_
  | Raw srcBuf count_ type_ =>
      let '(this', _, how) := convertAndCopy_raw this srcBuf count_ type_ in
      (this', how)
  end.

(** The invariant of the data model: type tag and element count match the
    size of the allocation behind [values]. *)
Definition consistent (w : Weights) : Prop :=
  allocation_size (values w) = count w * getElementSize (type w).

(** Stand-ins for the two intrinsics in the closed examples of statements
    that hold whatever the intrinsics compute. *)
Definition widen : half -> float := fun '(b0, b1) => (x00, x00, b0, b1).
Definition narrow : float -> half := fun '(_, _, b2, b3) => (b2, b3).

(** The product of the extents of a shape. *)
Definition product (extents : list Z) : Z := fold_right Z.mul 1 extents.

(** The [half] elements stored in a run of bytes. *)
Fixpoint halves (s : list byte) : list half :=
  match s with
  | b0 :: b1 :: s' => (b0, b1) :: halves s'
  | _ => []
  end.

(** The [float] elements stored in a run of bytes. *)
Fixpoint floats (s : list byte) : list float :=
  match s with
  | b0 :: b1 :: b2 :: b3 :: s' => (b0, b1, b2, b3) :: floats s'
  | _ => []
  end.

(** The bytes of one element, in memory order. *)
Definition float_bytes (f : float) : list byte :=
  let '(f0, f1, f2, f3) := f in [f0; f1; f2; f3].

Definition half_bytes (h : half) : list byte :=
  let '(h0, h1) := h in [h0; h1].














(* ===================================================================== *)
(** ** Properties *)
(* ===================================================================== *)

(** *** Machine arithmetic *)

Lemma wrap_small (w x : Z) : 0 <= x < 2 ^ w -> wrap w x = x.
Proof. intros H. unfold wrap. apply Z.mod_small. exact H. Qed.

Lemma wrap_range (w x : Z) : 0 <= w -> 0 <= wrap w x < 2 ^ w.
Proof.
  intros Hw. unfold wrap. apply Z.mod_pos_bound.
  apply Z.pow_pos_nonneg; lia.
Qed.

Lemma to_signed_small (w x : Z) :
  0 < w -> - 2 ^ (w - 1) <= x < 2 ^ (w - 1) -> to_signed w x = x.
Proof.
  intros Hw Hx. unfold to_signed.
  assert (E : 2 ^ w = 2 * 2 ^ (w - 1)).
  { replace w with (Z.succ (w - 1)) at 1 by lia. apply Z.pow_succ_r. lia. }
  rewrite Z.mod_small by lia. lia.
Qed.

Lemma arith_in_range (T : IntType) (x : Z) :
  min_value T <= x <= max_value T -> arith T x = Returns x.
Proof.
  intros H. unfold arith. unfold min_value, max_value in H.
  destruct (is_signed T) eqn:S.
  - unfold min_value, max_value. rewrite S.
    destruct (Z.leb_spec (- 2 ^ (width T - 1)) x); [| lia].
    destruct (Z.leb_spec x (2 ^ (width T - 1) - 1)); [| lia].
    reflexivity.
  - rewrite wrap_small by lia. reflexivity.
Qed.

Lemma arith_signed_returns (T : IntType) (x r : Z) :
  is_signed T = true -> arith T x = Returns r ->
  r = x /\ min_value T <= r <= max_value T.
Proof.
  unfold arith. intros -> H.
  destruct (Z.leb_spec (min_value T) x); simpl in H; [| discriminate].
  destruct (Z.leb_spec x (max_value T)); simpl in H; [| discriminate].
  inversion H; subst. lia.
Qed.

Lemma int64_range :
  min_value int64_t = - 2 ^ 63 /\ max_value int64_t = PTRDIFF_MAX.
Proof. split; reflexivity. Qed.

Lemma new_array_returns (elem_size n r : Z) :
  new_array elem_size n = Returns r ->
  0 <= n /\ r = n * elem_size /\ r <= PTRDIFF_MAX.
Proof.
  unfold new_array. intros H.
  destruct (Z.ltb_spec n 0); [discriminate |].
  destruct (Z.ltb_spec PTRDIFF_MAX (n * elem_size)); [discriminate |].
  inversion H; subst. lia.
Qed.

Lemma new_array_in_range (elem_size n : Z) :
  0 <= n -> n * elem_size <= PTRDIFF_MAX ->
  new_array elem_size n = Returns (n * elem_size).
Proof.
  intros Hn Hs. unfold new_array.
  destruct (Z.ltb_spec n 0); [lia |].
  destruct (Z.ltb_spec PTRDIFF_MAX (n * elem_size)); [lia | reflexivity].
Qed.

Lemma new_array_throws (elem_size n : Z) (e : exception) :
  new_array elem_size n = Throws e -> e = bad_array_new_length.
Proof.
  unfold new_array.
  destruct (n <? 0); [intros H; now inversion H |].
  destruct (PTRDIFF_MAX <? n * elem_size); intros H; now inversion H.
Qed.

(** *** DataType *)

Lemma DataType_eqb_eq (a b : DataType.t) : DataType.eqb a b = true <-> a = b.
Proof.
  split.
  - destruct a, b; simpl; intros H; try reflexivity; try discriminate.
    apply Z.eqb_eq in H. now subst.
  - intros ->. destruct b; simpl; try reflexivity. apply Z.eqb_refl.
Qed.

Lemma DataType_eqb_neq (a b : DataType.t) : DataType.eqb a b = false <-> a <> b.
Proof.
  rewrite <- DataType_eqb_eq. destruct (DataType.eqb a b); split; congruence.
Qed.

(** *** getMHAMaskPackedSize *)

Lemma isSmOK_test (smVersion : Z) :
  ((smVersion =? kSM_75) || (smVersion =? kSM_80) || (smVersion =? kSM_86)
   || (smVersion =? kSM_87) || (smVersion =? kSM_90)) = true <-> isSmOK smVersion.
Proof.
  unfold isSmOK, kSM_75, kSM_80, kSM_86, kSM_87, kSM_90. simpl.
  rewrite !orb_true_iff, !Z.eqb_eq. intuition lia.
Qed.

Lemma isPrecisionOK_test (dataType : DataType.t) :
  (DataType.eqb dataType DataType.kINT8 || DataType.eqb dataType DataType.kHALF) = true
  <-> isPrecisionOK dataType.
Proof.
  unfold isPrecisionOK. rewrite orb_true_iff, !DataType_eqb_eq. reflexivity.
Qed.

Lemma packed_constants :
  to_signed 32 unfusedMaskSize = 1
  /\ to_signed 32 packedMaskSize64 = 512
  /\ to_signed 32 packedMaskSize96 = 512
  /\ to_signed 32 packedMaskSize128 = 512
  /\ to_signed 32 packedMaskSize384 = 6144.
Proof. repeat split; reflexivity. Qed.

(** C1.  [getMHAMaskPackedSize] is a total function.  For a generation among
    75, 80, 86, 87, 90 and a type [kINT8] or [kHALF] it returns
    [xmmasM128 * threadsPerCta128 = 512] at the sequence lengths 64, 96, 128
    and [xmmasM384 * threadsPerCta384 = 6144] at 384; on every other
    combination of generation, type and length it returns the unfused mask
    size, 1. *)
Theorem getMHAMaskPackedSize_table (smVersion : Z) (dataType : DataType.t)
  (sequenceLength : Z) :
  let packedSize := getMHAMaskPackedSize smVersion dataType sequenceLength in
  xmmasM128 * threadsPerCta128 = 512
  /\ xmmasM384 * threadsPerCta384 = 6144
  /\ unfusedMaskSize = 1
  /\ (isSmOK smVersion /\ isPrecisionOK dataType /\ In sequenceLength [64; 96; 128] ->
      packedSize = xmmasM128 * threadsPerCta128)
  /\ (isSmOK smVersion /\ isPrecisionOK dataType /\ sequenceLength = 384 ->
      packedSize = xmmasM384 * threadsPerCta384)
  /\ (~ (isSmOK smVersion /\ isPrecisionOK dataType
         /\ In sequenceLength [64; 96; 128; 384]) ->
      packedSize = unfusedMaskSize).
Proof.
  cbv zeta. unfold getMHAMaskPackedSize.
  destruct packed_constants as (E1 & E64 & E96 & E128 & E384).
  rewrite E1, E64, E96, E128, E384.
  split; [reflexivity |]. split; [reflexivity |]. split; [reflexivity |].
  pose proof (isSmOK_test smVersion) as Hsm.
  pose proof (isPrecisionOK_test dataType) as Hpr.
  destruct ((smVersion =? kSM_75) || (smVersion =? kSM_80) || (smVersion =? kSM_86)
            || (smVersion =? kSM_87) || (smVersion =? kSM_90)).
  - destruct (DataType.eqb dataType DataType.kINT8
              || DataType.eqb dataType DataType.kHALF); simpl andb; cbv iota.
    + destruct (Z.eqb_spec sequenceLength 64);
        [| destruct (Z.eqb_spec sequenceLength 96);
           [| destruct (Z.eqb_spec sequenceLength 128);
              [| destruct (Z.eqb_spec sequenceLength 384)]]];
        (split; [| split]); simpl; intros; try reflexivity;
        intuition (try lia; try discriminate).
    + assert (~ isPrecisionOK dataType) by (intros P; apply Hpr in P; discriminate).
      repeat split; intros; try reflexivity; tauto.
  - assert (~ isSmOK smVersion) by (intros P; apply Hsm in P; discriminate).
    simpl. repeat split; intros; try reflexivity; tauto.
Qed.

Lemma getMHAMaskPackedSize_table_witness :
  getMHAMaskPackedSize 80 DataType.kHALF 384 = xmmasM384 * threadsPerCta384.
Proof.
  apply (getMHAMaskPackedSize_table 80 DataType.kHALF 384).
  split; [right; left; reflexivity |].
  split; [right; reflexivity | reflexivity].
Defined.

(** *** getElementSize and getWeightsSize *)

(** C10.  [getElementSize] is total and raises nothing: 4 for [kINT32] and
    [kFLOAT], 2 for [kHALF], 1 for [kBOOL], [kUINT8], [kINT8] and [kFP8], and
    0 for a value outside these enumerators (and only for such a value); for
    such a type [getWeightsSize] returns 0 bytes rather than failing. *)
Theorem getElementSize_table :
  getElementSize DataType.kINT32 = 4
  /\ getElementSize DataType.kFLOAT = 4
  /\ getElementSize DataType.kHALF = 2
  /\ getElementSize DataType.kBOOL = 1
  /\ getElementSize DataType.kUINT8 = 1
  /\ getElementSize DataType.kINT8 = 1
  /\ getElementSize DataType.kFP8 = 1
  /\ (forall t : DataType.t,
        getElementSize t = 0 <-> exists raw, t = DataType.other raw)
  /\ (forall (w : Weights) (raw : Z),
        getWeightsSize w (DataType.other raw) = Returns 0).
Proof.
  repeat (split; [reflexivity |]). split.
  - intros t; split.
    + destruct t; simpl; intros H; try discriminate. now exists raw.
    + intros [raw ->]. reflexivity.
  - intros w raw. unfold getWeightsSize. simpl getElementSize.
    rewrite Z.mul_0_r. reflexivity.
Qed.

Lemma getElementSize_range (t : DataType.t) : 0 <= getElementSize t <= 4.
Proof. destruct t; simpl; lia. Qed.

(** *** fieldTypeToDataType *)

(** C7.  [fieldTypeToDataType] maps [kFLOAT32] to [kFLOAT], [kFLOAT16] to
    [kHALF], [kINT32] to [kINT32] and [kINT8] to [kINT8]; for every other
    field type it returns no data type and throws an error with a non-empty
    message to its caller. *)
Theorem fieldTypeToDataType_table :
  fieldTypeToDataType PluginFieldType.kFLOAT32 = Returns DataType.kFLOAT
  /\ fieldTypeToDataType PluginFieldType.kFLOAT16 = Returns DataType.kHALF
  /\ fieldTypeToDataType PluginFieldType.kINT32 = Returns DataType.kINT32
  /\ fieldTypeToDataType PluginFieldType.kINT8 = Returns DataType.kINT8
  /\ (forall raw : Z,
        exists what : String.string,
          fieldTypeToDataType (PluginFieldType.other raw)
          = Throws (invalid_argument what)
          /\ what <> String.EmptyString)
  /\ (forall (ftype : PluginFieldType.t) (t : DataType.t),
        fieldTypeToDataType ftype = Returns t <->
        (ftype = PluginFieldType.kFLOAT32 /\ t = DataType.kFLOAT)
        \/ (ftype = PluginFieldType.kFLOAT16 /\ t = DataType.kHALF)
        \/ (ftype = PluginFieldType.kINT32 /\ t = DataType.kINT32)
        \/ (ftype = PluginFieldType.kINT8 /\ t = DataType.kINT8)).
Proof.
  repeat (split; [reflexivity |]). split.
  - intros raw. eexists. split; [reflexivity | discriminate].
  - intros ftype t. split.
    + destruct ftype; simpl; intros H; inversion H; subst; tauto.
    + intros [[-> ->] | [[-> ->] | [[-> ->] | [-> ->]]]]; reflexivity.
Qed.

(** *** ceildiv and alignTo *)

Lemma max_value_pos (T : IntType) : 0 < max_value T.
Proof. destruct T; vm_compute; reflexivity. Qed.

Lemma unsigned_modulus (T : IntType) :
  is_signed T = false -> 2 ^ width T = max_value T + 1.
Proof. unfold max_value. intros ->. lia. Qed.

(** The numerator [a + b - 1], computed in two steps. *)
Lemma numerator_exact (T : IntType) (a b : Z) :
  0 < a -> 0 < b -> sum_fits T a b ->
  (let* sum := arith T (a + b) in arith T (sum - 1)) = Returns (a + b - 1).
Proof.
  intros Ha Hb Hfit. unfold sum_fits in Hfit.
  destruct (is_signed T) eqn:S.
  - assert (M : min_value T <= 0) by (destruct T; vm_compute; discriminate).
    rewrite arith_in_range by lia. cbn [bind].
    apply arith_in_range. lia.
  - unfold arith. rewrite S. cbn [bind]. unfold wrap.
    rewrite Zminus_mod_idemp_l. rewrite (unsigned_modulus T S).
    rewrite Z.mod_small by lia. reflexivity.
Qed.

(** Without overflow the quotient is the mathematical ceiling. *)
Lemma ceildiv_exact (T : IntType) (a b : Z) :
  0 < a -> 0 < b -> sum_fits T a b ->
  ceildiv T a b = Returns ((a + b - 1) / b).
Proof.
  intros Ha Hb Hfit. unfold ceildiv.
  pose proof (numerator_exact T a b Ha Hb Hfit) as N.
  destruct (arith T (a + b)) as [sum | | |]; cbn [bind] in N |- *;
    try discriminate.
  rewrite N. cbn [bind].
  destruct (Z.eqb_spec b 0); [lia |].
  rewrite Z.quot_div_nonneg by lia.
  apply arith_in_range.
  assert (M : min_value T <= 0) by (destruct T; vm_compute; discriminate).
  assert (0 <= (a + b - 1) / b) by (apply Z.div_pos; lia).
  assert ((a + b - 1) / b <= a + b - 1) by (apply Z.div_le_upper_bound; nia).
  unfold sum_fits in Hfit. destruct (is_signed T); lia.
Qed.

Lemma ceiling_bounds (a b : Z) :
  0 < b -> a <= (a + b - 1) / b * b < a + b.
Proof.
  intros Hb.
  pose proof (Z.div_mod (a + b - 1) b ltac:(lia)) as E.
  pose proof (Z.mod_pos_bound (a + b - 1) b Hb) as M.
  nia.
Qed.

(** X4.  In [uint32_t] and [uint64_t], the unsigned instantiation types
    whose arithmetic is done in the type itself (a narrower unsigned type
    is promoted to [int] and is not an [IntType]), whenever [a + b - 1]
    exceeds the type's maximum for positive [a] and [b] of the type, the
    numerator wraps below [b] and [ceildiv(a, b)] returns 0. *)
Lemma ceildiv_wrapped (T : IntType) (a b : Z) :
  is_signed T = false ->
  0 < a <= max_value T -> 0 < b <= max_value T -> max_value T < a + b - 1 ->
  ceildiv T a b = Returns 0.
Proof.
  intros S Ha Hb Hover. unfold ceildiv, arith. rewrite S. cbn [bind].
  unfold wrap. rewrite Zminus_mod_idemp_l. rewrite (unsigned_modulus T S).
  assert (E : (a + b - 1) mod (max_value T + 1) = a + b - 1 - (max_value T + 1)).
  { symmetry. apply Z.mod_unique with (q := 1); lia. }
  rewrite E. destruct (Z.eqb_spec b 0); [lia |].
  rewrite Z.quot_small by lia. rewrite Z.mod_0_l by lia. reflexivity.
Qed.

(** In a signed type a sum that does not fit is undefined. *)
Lemma ceildiv_signed_overflow (T : IntType) (a b : Z) :
  is_signed T = true -> max_value T < a + b -> ceildiv T a b = Undefined.
Proof.
  intros S Hover. unfold ceildiv, arith. rewrite S.
  destruct (Z.leb_spec (a + b) (max_value T)); [lia |].
  rewrite andb_false_r. reflexivity.
Qed.

(** C2, as stated, fails: at [uint32_t], [a = 2^32 - 1] and [b = 2] make
    [a + b - 1] wrap to 0, so [ceildiv(a, b) = 0] and
    [ceildiv(a, b) * b = 0 < a]. *)
Lemma ceildiv_wraps_counterexample :
  ~ (0 < 4294967295 -> 0 < 2 ->
     exists q, ceildiv uint32_t 4294967295 2 = Returns q
               /\ q * 2 >= 4294967295 /\ q * 2 < 4294967295 + 2).
Proof.
  intros H. destruct H as (q & E & Hge & _); [lia | lia |].
  assert (E0 : ceildiv uint32_t 4294967295 2 = Returns 0) by reflexivity.
  rewrite E0 in E. inversion E; subst. lia.
Qed.

(** C2, amended.  For positive [a] and [b] of the instantiation type such
    that [a + b - 1] is computed without overflow (it does not exceed the
    type's maximum, nor does [a + b] when the type is signed),
    [ceildiv(a, b)] returns a quotient [q] with [q * b >= a] and
    [q * b < a + b]. *)
Theorem ceildiv_bounds (T : IntType) (a b : Z) :
  0 < a -> 0 < b -> sum_fits T a b ->
  exists q, ceildiv T a b = Returns q /\ q * b >= a /\ q * b < a + b.
Proof.
  intros Ha Hb Hfit. exists ((a + b - 1) / b).
  split; [now apply ceildiv_exact |].
  pose proof (ceiling_bounds a b Hb). lia.
Qed.

Lemma ceildiv_bounds_witness :
  exists q, ceildiv int32_t 300 128 = Returns q
            /\ q * 128 >= 300 /\ q * 128 < 300 + 128.
Proof.
  apply (ceildiv_bounds int32_t 300 128); [lia | lia |].
  unfold sum_fits. simpl. unfold max_value. simpl. lia.
Defined.

(** X1.  For positive [a] and [b] whose sum is computed without overflow,
    [alignTo(a, b)] returns the multiple of [b] that lies in
    [[a, a + b)]: the next multiple of [b] at or above [a]. *)
Lemma alignTo_bounds (T : IntType) (a b : Z) :
  0 < a -> 0 < b -> sum_fits T a b ->
  exists r, alignTo T a b = Returns r /\ a <= r < a + b /\ r mod b = 0.
Proof.
  intros Ha Hb Hfit. unfold alignTo.
  rewrite (ceildiv_exact T a b Ha Hb Hfit). cbn [bind].
  pose proof (ceiling_bounds a b Hb) as B.
  exists ((a + b - 1) / b * b). rewrite arith_in_range.
  - split; [reflexivity |]. split; [exact B |]. apply Z.mod_mul. lia.
  - assert (M : min_value T <= 0) by (destruct T; vm_compute; discriminate).
    unfold sum_fits in Hfit. destruct (is_signed T); lia.
Qed.

(** *** CublasConfigHelper *)

Lemma update_same (lib : library) (h : cublasHandle_t) (c : context) :
  update lib h c h = c.
Proof. unfold update. now rewrite Nat.eqb_refl. Qed.

Lemma update_other (lib : library) (h h' : cublasHandle_t) (c : context) :
  h' <> h -> update lib h c h' = lib h'.
Proof.
  intros N. unfold update. destruct (Nat.eqb_spec h' h); [contradiction | reflexivity].
Qed.

(** The constructor always returns on a live handle: it records the modes
    it finds and installs host pointers and tensor-op math. *)
Lemma CublasConfigHelper_ctor_returns (lib : library) (handle : cublasHandle_t) :
  exists helper lib1,
    CublasConfigHelper_ctor lib handle = Returns (helper, lib1)
    /\ pm helper = pointerMode (lib handle)
    /\ mm helper = mathMode (lib handle)
    /\ cublas helper = handle
    /\ lib1 handle = {| pointerMode := CUBLAS_POINTER_MODE_HOST;
                        mathMode := CUBLAS_TENSOR_OP_MATH |}.
Proof.
  unfold CublasConfigHelper_ctor. simpl.
  eexists. eexists. split; [reflexivity |]. simpl.
  repeat split. now rewrite !update_same.
Qed.

(** The destructor puts the recorded modes back, whatever it finds. *)
Lemma CublasConfigHelper_dtor_restores (this : CublasConfigHelper) (lib : library) :
  CublasConfigHelper_dtor this lib (cublas this)
  = {| pointerMode := pm this; mathMode := mm this |}.
Proof.
  unfold CublasConfigHelper_dtor. simpl. now rewrite !update_same.
Qed.

(** Neither touches any other handle. *)
Lemma CublasConfigHelper_dtor_frame (this : CublasConfigHelper) (lib : library)
  (h : cublasHandle_t) :
  h <> cublas this -> CublasConfigHelper_dtor this lib h = lib h.
Proof.
  intros N. unfold CublasConfigHelper_dtor. simpl. now rewrite !update_other.
Qed.

(** C8.  On the handle's (pointer mode, math mode) state: construction
    records the current pointer and math mode and then sets
    [CUBLAS_POINTER_MODE_HOST] and [CUBLAS_TENSOR_OP_MATH]; whatever the
    guarded body does to the library, and whether it leaves normally or with
    an exception, destruction restores exactly the recorded modes, so the
    handle's configuration after the guard's lifetime is the one before
    construction. *)
Theorem CublasConfigHelper_scope (body : library -> library * exit)
  (lib : library) (handle : cublasHandle_t) :
  exists helper lib1,
    CublasConfigHelper_ctor lib handle = Returns (helper, lib1)
    /\ pm helper = pointerMode (lib handle)
    /\ mm helper = mathMode (lib handle)
    /\ pointerMode (lib1 handle) = CUBLAS_POINTER_MODE_HOST
    /\ mathMode (lib1 handle) = CUBLAS_TENSOR_OP_MATH
    /\ guarded_scope body lib handle
       = Returns (CublasConfigHelper_dtor helper (fst (body lib1)), snd (body lib1))
    /\ pointerMode (CublasConfigHelper_dtor helper (fst (body lib1)) handle) = pm helper
    /\ mathMode (CublasConfigHelper_dtor helper (fst (body lib1)) handle) = mm helper
    /\ CublasConfigHelper_dtor helper (fst (body lib1)) handle = lib handle.
Proof.
  destruct (CublasConfigHelper_ctor_returns lib handle)
    as (helper & lib1 & Hctor & Hpm & Hmm & Hh & Hlib1).
  exists helper, lib1.
  split; [exact Hctor |]. split; [exact Hpm |]. split; [exact Hmm |].
  rewrite Hlib1. split; [reflexivity |]. split; [reflexivity |].
  split.
  - unfold guarded_scope. rewrite Hctor. simpl.
    destruct (body lib1) as [lib2 how]. reflexivity.
  - rewrite <- Hh at 1 2 3. rewrite CublasConfigHelper_dtor_restores. simpl.
    split; [reflexivity |]. split; [reflexivity |].
    rewrite Hpm, Hmm. now destruct (lib handle).
Qed.

(** *** Reading host memory *)

Lemma read_bytes_some (m : list byte) (pos n : Z) :
  0 <= pos -> 0 <= n -> pos + n <= Z.of_nat (length m) ->
  read_bytes m pos n = Some (firstn (Z.to_nat n) (skipn (Z.to_nat pos) m)).
Proof.
  intros Hp Hn Hin. unfold read_bytes.
  destruct (Z.leb_spec 0 pos); [| lia].
  destruct (Z.leb_spec 0 n); [| lia].
  destruct (Z.leb_spec (pos + n) (Z.of_nat (length m))); [| lia].
  reflexivity.
Qed.

Lemma read_bytes_inv (m : list byte) (pos n : Z) (d : list byte) :
  read_bytes m pos n = Some d ->
  0 <= pos /\ 0 <= n /\ pos + n <= Z.of_nat (length m)
  /\ d = firstn (Z.to_nat n) (skipn (Z.to_nat pos) m)
  /\ Z.of_nat (length d) = n.
Proof.
  unfold read_bytes. intros H.
  destruct (Z.leb_spec 0 pos); simpl in H; [| discriminate].
  destruct (Z.leb_spec 0 n); simpl in H; [| discriminate].
  destruct (Z.leb_spec (pos + n) (Z.of_nat (length m))); simpl in H; [| discriminate].
  inversion H; subst d. repeat (split; [assumption |]). split; [reflexivity |].
  rewrite length_firstn, length_skipn. lia.
Qed.

Lemma copy_n_length (p : pointer) (n : Z) (d : list byte) :
  copy_n p n = Some d -> Z.of_nat (length d) = n.
Proof.
  destruct p as [m |]; simpl.
  - intros H. now apply read_bytes_inv in H.
  - destruct (Z.eqb_spec n 0); intros H; inversion H; subst. reflexivity.
Qed.

(** A slice is found again between what precedes and what follows it. *)
Lemma slice_decomposition (m : list byte) (pos n : nat) :
  (pos + n <= length m)%nat ->
  m = firstn pos m ++ firstn n (skipn pos m) ++ skipn (pos + n) m.
Proof.
  intros _. rewrite <- (firstn_skipn pos m) at 1. f_equal.
  rewrite <- (firstn_skipn n (skipn pos m)) at 1. f_equal.
  rewrite skipn_skipn. f_equal. lia.
Qed.

Lemma read_bytes_app (prefix payload suffix : list byte) :
  read_bytes (prefix ++ payload ++ suffix) (Z.of_nat (length prefix))
    (Z.of_nat (length payload)) = Some payload.
Proof.
  rewrite read_bytes_some; rewrite ?length_app; try lia.
  rewrite !Nat2Z.id. rewrite skipn_app, skipn_all, Nat.sub_diag. simpl.
  rewrite firstn_app, firstn_all, Nat.sub_diag. simpl.
  now rewrite app_nil_r.
Qed.

(** *** The conversion loops *)

Section conversion_loops.

Variable half2float : half -> float.
Variable float2half : float -> half.

Lemma half2float_loop_length (n : nat) (s d : list byte) :
  half2float_loop half2float n s = Some d -> length d = (4 * n)%nat.
Proof.
  revert s d. induction n as [| n IH]; intros s d H; simpl in H.
  - inversion H. reflexivity.
  - destruct s as [| b0 [| b1 s']]; try discriminate.
    destruct (half2float_loop half2float n s') as [d' |] eqn:E; [| discriminate].
    destruct (half2float (b0, b1)) as [[[f0 f1] f2] f3].
    inversion H; subst d. simpl. rewrite (IH _ _ E). lia.
Qed.

Lemma float2half_loop_length (n : nat) (s d : list byte) :
  float2half_loop float2half n s = Some d -> length d = (2 * n)%nat.
Proof.
  revert s d. induction n as [| n IH]; intros s d H; simpl in H.
  - inversion H. reflexivity.
  - destruct s as [| b0 [| b1 [| b2 [| b3 s']]]]; try discriminate.
    destruct (float2half_loop float2half n s') as [d' |] eqn:E; [| discriminate].
    destruct (float2half (b0, b1, b2, b3)) as [h0 h1].
    inversion H; subst d. simpl. rewrite (IH _ _ E). lia.
Qed.

(** Each loop runs to its end when the source holds [n] elements. *)
Lemma half2float_loop_total (n : nat) (s : list byte) :
  (2 * n <= length s)%nat -> exists d, half2float_loop half2float n s = Some d.
Proof.
  revert s. induction n as [| n IH]; intros s H; simpl.
  - now exists [].
  - destruct s as [| b0 [| b1 s']]; simpl in H; try lia.
    destruct (IH s') as [d E]; [lia |]. rewrite E.
    destruct (half2float (b0, b1)) as [[[f0 f1] f2] f3]. eauto.
Qed.

Lemma float2half_loop_total (n : nat) (s : list byte) :
  (4 * n <= length s)%nat -> exists d, float2half_loop float2half n s = Some d.
Proof.
  revert s. induction n as [| n IH]; intros s H; simpl.
  - now exists [].
  - destruct s as [| b0 [| b1 [| b2 [| b3 s']]]]; simpl in H; try lia.
    destruct (IH s') as [d E]; [lia |]. rewrite E.
    destruct (float2half (b0, b1, b2, b3)) as [h0 h1]. eauto.
Qed.

End conversion_loops.

(** *** convertAndCopy: the typed overload *)

Section typed_conversion.

Variable half2float : half -> float.
Variable float2half : float -> half.

(** What the new array holds, by destination: the outcome of filling it. *)
Lemma filled_size (src : Weights) (elem_size : Z) (fill : outcome (list byte))
  (d : list byte) :
  (let* _ := new_array elem_size (count src) in fill) = Returns d ->
  0 <= count src /\ count src * elem_size <= PTRDIFF_MAX /\ fill = Returns d.
Proof.
  destruct (new_array elem_size (count src)) as [r | e | |] eqn:N;
    simpl; intros H; try discriminate.
  apply new_array_returns in N. intuition lia.
Qed.

Lemma convertAndCopy_returns (this : WeightsWithOwnership) (src : Weights)
  (type_ : DataType.t) (this' : WeightsWithOwnership) :
  convertAndCopy half2float float2half this src type_ = (this', Returns tt) ->
  (type_ = DataType.kFLOAT \/ type_ = DataType.kHALF)
  /\ type this' = type_
  /\ count this' = count src
  /\ 0 <= count src
  /\ count src * getElementSize type_ <= PTRDIFF_MAX
  /\ exists d, values this' = Some d
               /\ Z.of_nat (length d) = count src * getElementSize type_.
Proof.
  unfold bert.convertAndCopy.
  match goal with
  | |- (match ?X with _ => _ end) = _ -> _ => destruct X as [d | e | |] eqn:E
  end; intros H; inversion H; subst this'; clear H; simpl.
  destruct (DataType.eqb type_ DataType.kFLOAT) eqn:TF.
  - apply DataType_eqb_eq in TF. subst type_.
    apply filled_size in E. destruct E as (Hc & Hs & E).
    split; [now left |]. repeat (split; [first [reflexivity | assumption] |]).
    exists d. split; [reflexivity |]. simpl getElementSize.
    destruct (DataType.eqb (type src) DataType.kFLOAT).
    + destruct (copy_n _ _) as [d' |] eqn:C; inversion E; subst d'.
      now apply copy_n_length in C.
    + destruct (PLUGIN_ASSERT _); try discriminate. simpl in E.
      destruct (int_counter_reaches _); try discriminate. simpl in E.
      destruct (half2float_loop _ _ _) as [d' |] eqn:L; inversion E; subst d'.
      apply half2float_loop_length in L. lia.
  - destruct (DataType.eqb type_ DataType.kHALF) eqn:TH; [| discriminate].
    apply DataType_eqb_eq in TH. subst type_.
    apply filled_size in E. destruct E as (Hc & Hs & E).
    split; [now right |]. repeat (split; [first [reflexivity | assumption] |]).
    exists d. split; [reflexivity |]. simpl getElementSize.
    destruct (DataType.eqb (type src) DataType.kHALF).
    + destruct (copy_n _ _) as [d' |] eqn:C; inversion E; subst d'.
      now apply copy_n_length in C.
    + destruct (PLUGIN_ASSERT _); try discriminate. simpl in E.
      destruct (int_counter_reaches _); try discriminate. simpl in E.
      destruct (float2half_loop _ _ _) as [d' |] eqn:L; inversion E; subst d'.
      apply float2half_loop_length in L. lia.
Qed.

(** On a source of type [kFLOAT] or [kHALF] that holds its [count]
    elements, with [count] at most [INT_MAX], a conversion to [kFLOAT] or
    [kHALF] returns, with the requested type, the source's count and a
    fresh buffer. *)
Lemma convertAndCopy_total (this : WeightsWithOwnership) (src : Weights)
  (type_ : DataType.t) (m : list byte) :
  type_ = DataType.kFLOAT \/ type_ = DataType.kHALF ->
  type src = DataType.kFLOAT \/ type src = DataType.kHALF ->
  values src = Some m ->
  0 <= count src <= INT_MAX ->
  Z.of_nat (length m) = count src * getElementSize (type src) ->
  exists d,
    convertAndCopy half2float float2half this src type_
    = ({| type := type_; values := Some d; count := count src |}, Returns tt).
Proof.
  intros Hd Hs Hv Hc Hl. unfold convertAndCopy. rewrite Hv.
  assert (HI : INT_MAX = 2147483647) by reflexivity.
  assert (HP : PTRDIFF_MAX = 9223372036854775807) by reflexivity.
  assert (C : copy_n (Some m) (Z.of_nat (length m)) = Some m).
  { simpl. rewrite read_bytes_some by lia.
    rewrite Nat2Z.id. simpl. now rewrite firstn_all. }
  assert (Hcount : int_counter_reaches (count src) = Returns tt).
  { unfold int_counter_reaches.
    destruct (Z.ltb_spec INT_MAX (count src)); [lia | reflexivity]. }
  destruct Hd as [-> | ->], Hs as [Hs | Hs]; rewrite Hs in *;
    cbn [getElementSize] in Hl; cbn [DataType.eqb PLUGIN_ASSERT pointee];
    rewrite new_array_in_range by (unfold sizeof_float, sizeof_half; lia);
    cbn [bind]; rewrite ?Hcount; cbn [bind].
  - unfold sizeof_float. rewrite <- Hl, C. eexists. reflexivity.
  - destruct (half2float_loop_total half2float (Z.to_nat (count src)) m)
      as [d E]; [lia |]. rewrite E. eexists. reflexivity.
  - destruct (float2half_loop_total float2half (Z.to_nat (count src)) m)
      as [d E]; [lia |]. rewrite E. eexists. reflexivity.
  - unfold sizeof_half. rewrite <- Hl, C. eexists. reflexivity.
Qed.

End typed_conversion.

(** *** convertAndCopy: the raw-byte overload *)

(** The byte count is [count * getElementSize(type)] even when the
    [size_t] count does not fit the signed field: then the element size
    is 0 or the product is out of reach of any buffer. *)
Lemma stored_count_size (count_ : Z) (type_ : DataType.t) :
  0 <= count_ -> count_ * getElementSize type_ <= PTRDIFF_MAX ->
  to_signed 64 count_ * getElementSize type_ = count_ * getElementSize type_.
Proof.
  intros Hc Hs. pose proof (getElementSize_range type_) as R.
  destruct (Z.eq_dec (getElementSize type_) 0) as [E | N].
  - rewrite E. lia.
  - rewrite to_signed_small; [reflexivity | lia |].
    unfold PTRDIFF_MAX in Hs. simpl Z.sub. nia.
Qed.

Lemma convertAndCopy_raw_returns (this : WeightsWithOwnership) (srcBuf : cursor)
  (count_ : Z) (type_ : DataType.t) (this' : WeightsWithOwnership)
  (srcBuf' : cursor) :
  convertAndCopy_raw this srcBuf count_ type_ = (this', srcBuf', Returns tt) ->
  type this' = type_
  /\ count this' = to_signed 64 count_
  /\ exists d,
       values this' = Some d
       /\ Z.of_nat (length d) = count this' * getElementSize type_
       /\ count this' * getElementSize type_ <= PTRDIFF_MAX
       /\ read_bytes (buffer srcBuf) (position srcBuf) (Z.of_nat (length d)) = Some d
       /\ srcBuf' = {| buffer := buffer srcBuf;
                       position := position srcBuf + Z.of_nat (length d) |}.
Proof.
  unfold convertAndCopy_raw, getWeightsSize. cbn [count].
  destruct (arith int64_t (to_signed 64 count_ * getElementSize type_))
    as [nbBytes | | |] eqn:M; simpl; intros H; try discriminate.
  apply arith_signed_returns in M; [| reflexivity]. destruct M as [-> M].
  destruct (new_array sizeof_char _) as [r | e | |] eqn:N; simpl in H;
    try discriminate.
  destruct (read_bytes _ _ _) as [d |] eqn:R; simpl in H; try discriminate.
  inversion H; subst this' srcBuf'; clear H. simpl.
  split; [reflexivity |]. split; [reflexivity |].
  exists d. pose proof (read_bytes_inv _ _ _ _ R) as (_ & _ & _ & _ & L).
  destruct int64_range as [_ Emax]. rewrite Emax in M.
  rewrite L. repeat split; try assumption; lia.
Qed.

(** The run of the raw-byte overload on a cursor with enough bytes behind
    it. *)
Lemma convertAndCopy_raw_run (this : WeightsWithOwnership) (srcBuf : cursor)
  (count_ : Z) (type_ : DataType.t) (d : list byte) :
  0 <= count_ ->
  count_ * getElementSize type_ <= PTRDIFF_MAX ->
  read_bytes (buffer srcBuf) (position srcBuf) (count_ * getElementSize type_)
  = Some d ->
  convertAndCopy_raw this srcBuf count_ type_
  = ({| type := type_; values := Some d; count := to_signed 64 count_ |},
     {| buffer := buffer srcBuf;
        position := position srcBuf + count_ * getElementSize type_ |},
     Returns tt).
Proof.
  intros Hc Hs Hr.
  pose proof (getElementSize_range type_) as R.
  assert (W : getWeightsSize
                {| type := type_; values := values this;
                   count := to_signed 64 count_ |} type_
              = Returns (count_ * getElementSize type_)).
  { unfold getWeightsSize. cbn [count].
    rewrite (stored_count_size count_ type_ Hc Hs). apply arith_in_range.
    destruct int64_range as [Emin Emax]. rewrite Emin, Emax. nia. }
  unfold convertAndCopy_raw. cbv zeta. rewrite W. cbn [bind].
  rewrite new_array_in_range by (unfold sizeof_char; nia).
  cbn [bind]. rewrite Hr. reflexivity.
Qed.

(** Serialized between any prefix and suffix, a payload of
    [count * elementSize(type)] bytes is read back by the raw-byte overload
    as it was written, and the cursor ends just behind it. *)
Lemma convertAndCopy_raw_round_trip (this : WeightsWithOwnership)
  (prefix payload suffix : list byte) (count_ : Z) (type_ : DataType.t) :
  0 <= count_ ->
  Z.of_nat (length payload) = count_ * getElementSize type_ ->
  Z.of_nat (length payload) <= PTRDIFF_MAX ->
  convertAndCopy_raw this
    {| buffer := prefix ++ payload ++ suffix;
       position := Z.of_nat (length prefix) |} count_ type_
  = ({| type := type_; values := Some payload; count := to_signed 64 count_ |},
     {| buffer := prefix ++ payload ++ suffix;
        position := Z.of_nat (length prefix) + Z.of_nat (length payload) |},
     Returns tt).
Proof.
  intros Hc Hl Hmax. rewrite Hl.
  apply convertAndCopy_raw_run; [exact Hc | lia |].
  cbn [buffer position]. rewrite <- Hl. apply read_bytes_app.
Qed.

(** C5.  For a cursor inside a buffer that holds [count * elementSize(type)]
    bytes from the cursor on, the raw-byte overload returns; the fresh
    [values] buffer holds exactly these bytes, equal to the source bytes one
    for one, and the cursor has advanced by exactly their number.  So a
    payload serialized between any prefix and suffix is read back
    unchanged. *)
Theorem convertAndCopy_raw_verbatim (this : WeightsWithOwnership)
  (srcBuf : cursor) (count_ : Z) (type_ : DataType.t) :
  let nbBytes := count_ * getElementSize type_ in
  0 <= count_ ->
  0 <= position srcBuf ->
  position srcBuf + nbBytes <= Z.of_nat (length (buffer srcBuf)) ->
  Z.of_nat (length (buffer srcBuf)) <= PTRDIFF_MAX ->
  exists destBuf,
    convertAndCopy_raw this srcBuf count_ type_
    = ({| type := type_; values := Some destBuf; count := to_signed 64 count_ |},
       {| buffer := buffer srcBuf; position := position srcBuf + nbBytes |},
       Returns tt)
    /\ Z.of_nat (length destBuf) = nbBytes
    /\ destBuf = firstn (Z.to_nat nbBytes)
                   (skipn (Z.to_nat (position srcBuf)) (buffer srcBuf))
    /\ buffer srcBuf
       = firstn (Z.to_nat (position srcBuf)) (buffer srcBuf)
         ++ destBuf
         ++ skipn (Z.to_nat (position srcBuf + nbBytes)) (buffer srcBuf)
    /\ (forall i : nat,
          (i < length destBuf)%nat ->
          nth_error destBuf i
          = nth_error (buffer srcBuf) (Z.to_nat (position srcBuf) + i)).
Proof.
  intros nbBytes Hc Hp Hin Hmax.
  pose proof (getElementSize_range type_) as R.
  assert (Hn : 0 <= nbBytes) by (subst nbBytes; nia).
  assert (Hs : nbBytes <= PTRDIFF_MAX) by lia.
  exists (firstn (Z.to_nat nbBytes)
            (skipn (Z.to_nat (position srcBuf)) (buffer srcBuf))).
  assert (L : Z.of_nat (length (firstn (Z.to_nat nbBytes)
                (skipn (Z.to_nat (position srcBuf)) (buffer srcBuf)))) = nbBytes).
  { rewrite length_firstn, length_skipn. lia. }
  split; [| split; [exact L | split; [reflexivity | split]]].
  - apply convertAndCopy_raw_run; [exact Hc | exact Hs |].
    fold nbBytes. apply read_bytes_some; lia.
  - replace (Z.to_nat (position srcBuf + nbBytes))
      with (Z.to_nat (position srcBuf) + Z.to_nat nbBytes)%nat by lia.
    apply slice_decomposition. lia.
  - intros i Hi. rewrite nth_error_firstn.
    destruct (Nat.ltb_spec i (Z.to_nat nbBytes)) as [_ | Hge].
    + apply nth_error_skipn.
    + rewrite length_firstn, length_skipn in Hi. lia.
Qed.

Lemma convertAndCopy_raw_verbatim_witness :
  exists destBuf,
    convertAndCopy_raw (WeightsWithOwnership_ctor DataType.kFLOAT)
      {| buffer := [x01; x02; x03; x04; x05; x06; x07]; position := 1 |}
      2 DataType.kHALF
    = ({| type := DataType.kHALF; values := Some destBuf; count := to_signed 64 2 |},
       {| buffer := [x01; x02; x03; x04; x05; x06; x07]; position := 1 + 4 |},
       Returns tt)
    /\ destBuf = [x02; x03; x04; x05].
Proof.
  destruct (convertAndCopy_raw_verbatim (WeightsWithOwnership_ctor DataType.kFLOAT)
              {| buffer := [x01; x02; x03; x04; x05; x06; x07]; position := 1 |}
              2 DataType.kHALF) as (destBuf & E & _ & D & _).
  - lia.
  - simpl. lia.
  - simpl. lia.
  - simpl. unfold PTRDIFF_MAX. lia.
  - exists destBuf. split; [exact E | exact D].
Defined.

(** *** Conversions and the size of the converted buffer *)

(** Case analysis on the checks made while the new array is filled. *)
Ltac fill_cases :=
  unfold PLUGIN_ASSERT, int_counter_reaches, defined;
  repeat match goal with
         | |- context [if ?b then _ else _] => destruct b; cbn [bind]
         | |- context [match ?o with Some _ => _ | None => _ end] =>
             destruct o; cbn [bind]
         end;
  discriminate.


Section conversions_and_sizes.

Variable half2float : half -> float.
Variable float2half : float -> half.

(** What a conversion that returns leaves in the object. *)
Lemma convert_returns (this : WeightsWithOwnership) (op : conversion)
  (this' : WeightsWithOwnership) :
  convert half2float float2half this op = (this', Returns tt) ->
  type this' = destination op
  /\ 0 <= count this' * getElementSize (destination op) <= PTRDIFF_MAX
  /\ exists d, values this' = Some d
               /\ Z.of_nat (length d)
                  = count this' * getElementSize (destination op).
Proof.
  destruct op as [src type_ | srcBuf count_ type_]; simpl.
  - intros H. apply convertAndCopy_returns in H.
    destruct H as (_ & Ht & Hc & Hpos & Hs & d & Hv & Hl).
    pose proof (getElementSize_range type_) as R.
    rewrite Hc. split; [exact Ht |]. split.
    + nia.
    + now exists d.
  - destruct (convertAndCopy_raw this srcBuf count_ type_) as [[w c] how] eqn:E.
    intros H. inversion H; subst w how; clear H.
    apply convertAndCopy_raw_returns in E.
    destruct E as (Ht & _ & d & Hv & Hl & Hr & _).
    split; [exact Ht |]. split; [lia |]. now exists d.
Qed.

(** C3.  After a [convertAndCopy] that completed, through either overload,
    [getWeightsSize] of the object at its stored type is its element count
    times the element size of the destination type, and that is the byte
    size of the buffer allocated for [values]. *)
Theorem converted_buffer_size (this : WeightsWithOwnership) (op : conversion)
  (this' : WeightsWithOwnership) :
  convert half2float float2half this op = (this', Returns tt) ->
  getWeightsSize this' (type this')
  = Returns (count this' * getElementSize (destination op))
  /\ exists destBuf,
       values this' = Some destBuf
       /\ Z.of_nat (length destBuf)
          = count this' * getElementSize (destination op).
Proof.
  intros H. apply convert_returns in H. destruct H as (Ht & Hr & Hd).
  split; [| exact Hd].
  unfold getWeightsSize. rewrite Ht. apply arith_in_range.
  destruct int64_range as [Emin Emax]. rewrite Emin, Emax. lia.
Qed.

(** C9, amended.  After every conversion operation that completes, through
    either overload, the type tag and the element count match the size of
    the allocation behind [values]. *)
Theorem conversion_keeps_consistent (this : WeightsWithOwnership)
  (op : conversion) (this' : WeightsWithOwnership) :
  convert half2float float2half this op = (this', Returns tt) ->
  consistent this'.
Proof.
  intros H. apply convert_returns in H.
  destruct H as (Ht & _ & d & Hv & Hl).
  unfold consistent. rewrite Hv, Ht. exact Hl.
Qed.

(** C6.  The typed overload throws its unsupported-type error exactly when
    the requested destination type is neither [kFLOAT] nor [kHALF]; the call
    then ends with that exception in the caller's hands, not with an abort,
    and [values] is the pointer it was: no buffer was produced. *)
Theorem convertAndCopy_unsupported_type (this : WeightsWithOwnership)
  (src : Weights) (type_ : DataType.t) :
  let result := convertAndCopy half2float float2half this src type_ in
  ((exists what, snd result = Throws (runtime_error what))
   <-> type_ <> DataType.kFLOAT /\ type_ <> DataType.kHALF)
  /\ (type_ <> DataType.kFLOAT /\ type_ <> DataType.kHALF ->
      snd result
      = Throws (runtime_error "Unsupported DataType specified for plugin."%string)
      /\ snd result <> Aborts
      /\ values (fst result) = values this).
Proof.
  cbv zeta. unfold convertAndCopy.
  destruct (DataType.eqb type_ DataType.kFLOAT) eqn:TF.
  - apply DataType_eqb_eq in TF. subst type_. split; [split |].
    + intros [what H]. exfalso. revert H.
      destruct (new_array _ _) as [r | e | |] eqn:N; simpl; try discriminate;
        [| apply new_array_throws in N; subst e; discriminate].
      fill_cases.
    + intros [N _]. now contradiction N.
    + intros [N _]. now contradiction N.
  - destruct (DataType.eqb type_ DataType.kHALF) eqn:TH.
    + apply DataType_eqb_eq in TH. subst type_. split; [split |].
      * intros [what H]. exfalso. revert H.
        destruct (new_array _ _) as [r | e | |] eqn:N; simpl; try discriminate;
          [| apply new_array_throws in N; subst e; discriminate].
        fill_cases.
      * intros [_ N]. now contradiction N.
      * intros [_ N]. now contradiction N.
    + apply DataType_eqb_neq in TF, TH. simpl. split; [split |].
      * intros _. now split.
      * intros _. eexists. reflexivity.
      * intros _. split; [reflexivity |]. split; [discriminate | reflexivity].
Qed.

End conversions_and_sizes.

(** *** Closed instances *)

Lemma converted_buffer_size_witness :
  getWeightsSize
    (fst (convert widen narrow (WeightsWithOwnership_ctor DataType.kINT8)
            (Typed {| type := DataType.kHALF;
                      values := Some [x00; x3c; x00; xc0];
                      count := 2 |} DataType.kFLOAT)))
    DataType.kFLOAT
  = Returns (2 * 4).
Proof.
  apply (converted_buffer_size widen narrow
           (WeightsWithOwnership_ctor DataType.kINT8)
           (Typed {| type := DataType.kHALF;
                     values := Some [x00; x3c; x00; xc0];
                     count := 2 |} DataType.kFLOAT)).
  reflexivity.
Defined.

Lemma conversion_keeps_consistent_witness :
  consistent
    (fst (convert widen narrow (WeightsWithOwnership_ctor DataType.kINT8)
            (Raw {| buffer := [x00; x3c; x00; xc0; x07]; position := 0 |}
               2 DataType.kHALF))).
Proof.
  apply (conversion_keeps_consistent widen narrow
           (WeightsWithOwnership_ctor DataType.kINT8)
           (Raw {| buffer := [x00; x3c; x00; xc0; x07]; position := 0 |}
              2 DataType.kHALF)).
  reflexivity.
Defined.

Lemma convertAndCopy_unsupported_type_witness :
  snd (convertAndCopy widen narrow (WeightsWithOwnership_ctor DataType.kFLOAT)
         {| type := DataType.kFLOAT;
            values := Some [x00; x00; x80; x3f];
            count := 1 |} DataType.kINT8)
  = Throws (runtime_error "Unsupported DataType specified for plugin."%string)
  /\ values
       (fst (convertAndCopy widen narrow (WeightsWithOwnership_ctor DataType.kFLOAT)
               {| type := DataType.kFLOAT;
                  values := Some [x00; x00; x80; x3f];
                  count := 1 |} DataType.kINT8))
     = None.
Proof.
  destruct (convertAndCopy_unsupported_type widen narrow
              (WeightsWithOwnership_ctor DataType.kFLOAT)
              {| type := DataType.kFLOAT;
                 values := Some [x00; x00; x80; x3f];
                 count := 1 |} DataType.kINT8) as [_ H].
  destruct H as (E & _ & V).
  - split; discriminate.
  - split; [exact E | exact V].
Defined.

(** C9, as stated, fails: a fresh object, consistent with count 0 and no
    allocation, is asked to convert one [float] to [kINT8].  The call throws
    the unsupported-type error after [type] and [count] were assigned, and
    leaves count 1 and type [kINT8] over no allocation at all. *)
Lemma unsupported_type_breaks_consistency :
  consistent (WeightsWithOwnership_ctor DataType.kFLOAT)
  /\ convert widen narrow (WeightsWithOwnership_ctor DataType.kFLOAT)
       (Typed {| type := DataType.kFLOAT;
                 values := Some [x00; x00; x80; x3f];
                 count := 1 |} DataType.kINT8)
     = ({| type := DataType.kINT8; values := None; count := 1 |},
        Throws (runtime_error "Unsupported DataType specified for plugin."%string))
  /\ ~ consistent
         (fst (convert widen narrow (WeightsWithOwnership_ctor DataType.kFLOAT)
                 (Typed {| type := DataType.kFLOAT;
                           values := Some [x00; x00; x80; x3f];
                           count := 1 |} DataType.kINT8))).
Proof.
  split; [reflexivity |]. split; [reflexivity |].
  unfold consistent. simpl. discriminate.
Qed.

(** *** Conversion to the same type, and there and back *)

Section round_trips.

Variable half2float : half -> float.
Variable float2half : float -> half.

(** X13.  Converting a [kFLOAT] or [kHALF] source that holds its [count]
    elements to the type it already has returns, and the new buffer holds
    the source's bytes as they are; [type] and [count] are the source's. *)
Lemma convertAndCopy_same_type (this : WeightsWithOwnership) (src : Weights)
  (m : list byte) :
  type src = DataType.kFLOAT \/ type src = DataType.kHALF ->
  values src = Some m ->
  Z.of_nat (length m) = count src * getElementSize (type src) ->
  Z.of_nat (length m) <= PTRDIFF_MAX ->
  convertAndCopy half2float float2half this src (type src)
  = ({| type := type src; values := Some m; count := count src |}, Returns tt).
Proof.
  intros Ht Hv Hl Hmax. unfold convertAndCopy. rewrite Hv.
  assert (C : copy_n (Some m) (Z.of_nat (length m)) = Some m).
  { simpl. rewrite read_bytes_some by lia.
    rewrite Nat2Z.id. simpl. now rewrite firstn_all. }
  destruct Ht as [Ht | Ht]; rewrite Ht in *; cbn [getElementSize] in Hl;
    cbn [DataType.eqb].
  - rewrite new_array_in_range by (unfold sizeof_float; lia).
    cbn [bind]. unfold sizeof_float. rewrite <- Hl, C. reflexivity.
  - rewrite new_array_in_range by (unfold sizeof_half; lia).
    cbn [bind]. unfold sizeof_half. rewrite <- Hl, C. reflexivity.
Qed.

(** Widening every [half] and narrowing the results gives the source back
    wherever the two intrinsics do so element by element. *)
Lemma float2half_half2float_loop (n : nat) (s d : list byte) :
  (forall h : half, float2half (half2float h) = h) ->
  half2float_loop half2float n s = Some d ->
  float2half_loop float2half n d = Some (firstn (2 * n) s).
Proof.
  intros Hid. revert s d. induction n as [| n IH]; intros s d H; simpl in H.
  - inversion H. reflexivity.
  - destruct s as [| b0 [| b1 s']]; try discriminate.
    destruct (half2float_loop half2float n s') as [d' |] eqn:E; [| discriminate].
    pose proof (Hid (b0, b1)) as Hh.
    destruct (half2float (b0, b1)) as [[[f0 f1] f2] f3].
    inversion H; subst d. cbn [float2half_loop].
    rewrite (IH _ _ E), Hh.
    replace (2 * S n)%nat with (S (S (2 * n))) by lia. reflexivity.
Qed.

End round_trips.

(* ===================================================================== *)
(** ** More of the header *)
(* ===================================================================== *)

(** *** ceildiv and alignTo, continued *)

Lemma alignTo_bounds_witness :
  exists r, alignTo uint64_t 1000 64 = Returns r
            /\ 1000 <= r < 1000 + 64 /\ r mod 64 = 0.
Proof.
  apply (alignTo_bounds uint64_t 1000 64); [lia | lia |].
  unfold sum_fits. simpl. unfold max_value. simpl. lia.
Defined.

Lemma ceildiv_wrapped_witness : ceildiv uint32_t 4294967295 2 = Returns 0.
Proof.
  apply (ceildiv_wrapped uint32_t 4294967295 2).
  - reflexivity.
  - unfold max_value. simpl. lia.
  - unfold max_value. simpl. lia.
  - unfold max_value. simpl. lia.
Defined.

(** X2.  Without overflow, [ceildiv(a, b)] is the least number of blocks of
    size [b] that cover [a]: its result [q] has [a <= q * b], and every [k]
    with [a <= k * b] is at least [q]. *)
Theorem ceildiv_least (T : IntType) (a b : Z) :
  0 < a -> 0 < b -> sum_fits T a b ->
  exists q, ceildiv T a b = Returns q
            /\ a <= q * b
            /\ forall k : Z, a <= k * b -> q <= k.
Proof.
  intros Ha Hb Hfit. exists ((a + b - 1) / b).
  split; [now apply ceildiv_exact |].
  pose proof (ceiling_bounds a b Hb) as B.
  split; [lia |]. intros k Hk. nia.
Qed.

Lemma ceildiv_least_witness :
  exists q, ceildiv int64_t 385 128 = Returns q
            /\ 385 <= q * 128
            /\ forall k : Z, 385 <= k * 128 -> q <= k.
Proof.
  apply (ceildiv_least int64_t 385 128); [lia | lia |].
  unfold sum_fits. simpl. unfold max_value. simpl. lia.
Defined.

(** X3.  A multiple of [b] is its own alignment: for positive [k] and [b]
    with [k * b + b] computed without overflow, [ceildiv(k * b, b)] returns
    [k] and [alignTo(k * b, b)] returns [k * b]. *)
Theorem alignTo_multiple (T : IntType) (k b : Z) :
  0 < k -> 0 < b -> sum_fits T (k * b) b ->
  ceildiv T (k * b) b = Returns k /\ alignTo T (k * b) b = Returns (k * b).
Proof.
  intros Hk Hb Hfit.
  assert (Ha : 0 < k * b) by nia.
  assert (Q : (k * b + b - 1) / b = k).
  { replace (k * b + b - 1) with (k * b + (b - 1)) by lia.
    rewrite Z.div_add_l by lia. rewrite Z.div_small by lia. lia. }
  assert (C : ceildiv T (k * b) b = Returns k).
  { rewrite (ceildiv_exact T (k * b) b Ha Hb Hfit). now rewrite Q. }
  split; [exact C |].
  unfold alignTo. rewrite C. cbn [bind]. apply arith_in_range.
  assert (M : min_value T <= 0) by (destruct T; vm_compute; discriminate).
  unfold sum_fits in Hfit. destruct (is_signed T); lia.
Qed.

Lemma alignTo_multiple_witness :
  ceildiv uint32_t (3 * 128) 128 = Returns 3
  /\ alignTo uint32_t (3 * 128) 128 = Returns (3 * 128).
Proof.
  apply (alignTo_multiple uint32_t 3 128); [lia | lia |].
  unfold sum_fits. simpl. unfold max_value. simpl. lia.
Defined.

(** *** volume *)

Lemma product_positive (extents : list Z) :
  Forall (fun extent => 1 <= extent) extents -> 1 <= product extents.
Proof.
  unfold product. induction 1 as [| x l Hx _ IH]; cbn [fold_right]; [lia | nia].
Qed.

Lemma product_app (l1 l2 : list Z) :
  product (l1 ++ l2) = product l1 * product l2.
Proof.
  unfold product. induction l1 as [| x l1 IH]; cbn [app fold_right]; [lia |].
  rewrite IH. lia.
Qed.

Lemma accumulate_multiplies_app (l1 l2 : list Z) (init : Z) :
  accumulate_multiplies (l1 ++ l2) init
  = (let* acc := accumulate_multiplies l1 init in accumulate_multiplies l2 acc).
Proof.
  revert init. induction l1 as [| x l1 IH]; intros init; simpl; [reflexivity |].
  destruct (arith int64_t (init * x)); simpl; [apply IH | reflexivity ..].
Qed.

(** On positive extents the running product never exceeds the final one. *)
Lemma accumulate_multiplies_product (range : list Z) (init : Z) :
  Forall (fun extent => 1 <= extent) range ->
  1 <= init ->
  init * product range <= max_value int64_t ->
  accumulate_multiplies range init = Returns (init * product range).
Proof.
  intros Hpos. revert init.
  induction Hpos as [| x l Hx Hl IH]; intros init Hi Hmax; simpl in *.
  - f_equal. lia.
  - pose proof (product_positive l Hl) as P.
    assert (M : min_value int64_t <= 0) by (vm_compute; discriminate).
    assert (Hix : 1 <= init * x) by nia.
    assert (Hgrow : init * x <= init * x * product l) by nia.
    assert (E : init * (x * product l) = init * x * product l) by lia.
    rewrite arith_in_range by lia. cbn [bind].
    rewrite IH by lia. f_equal. lia.
Qed.

(** Once the running product is 0 it stays 0, whatever follows. *)
Lemma accumulate_multiplies_zero (range : list Z) :
  accumulate_multiplies range 0 = Returns 0.
Proof.
  induction range as [| x l IH]; cbn [accumulate_multiplies]; [reflexivity |].
  replace (0 * x) with 0 by lia.
  assert (Z0 : arith int64_t 0 = Returns 0) by reflexivity.
  rewrite Z0. exact IH.
Qed.

Lemma dims_range_some (dims : Dims.t) :
  0 <= Dims.nbDims dims <= Z.of_nat (length (Dims.d dims)) ->
  dims_range dims = Some (firstn (Z.to_nat (Dims.nbDims dims)) (Dims.d dims)).
Proof.
  intros H. unfold dims_range.
  destruct (Z.leb_spec 0 (Dims.nbDims dims)); [| lia].
  destruct (Z.leb_spec (Dims.nbDims dims) (Z.of_nat (length (Dims.d dims))));
    [reflexivity | lia].
Qed.

(** X5.  For a shape whose [nbDims] lies within the array and whose extents
    in use are all positive, [volume] returns the product of these extents
    whenever that product fits a signed 64-bit integer (1 for a shape of no
    dimensions); entries of [d] beyond [nbDims] play no part. *)
Theorem volume_product (dims : Dims.t) :
  let extents := firstn (Z.to_nat (Dims.nbDims dims)) (Dims.d dims) in
  0 <= Dims.nbDims dims <= Z.of_nat (length (Dims.d dims)) ->
  Forall (fun extent => 1 <= extent) extents ->
  product extents <= max_value int64_t ->
  volume dims = Returns (product extents).
Proof.
  intros extents Hn Hpos Hmax. unfold volume.
  rewrite (dims_range_some dims Hn). cbn [defined bind]. fold extents.
  rewrite accumulate_multiplies_product; [f_equal; lia | exact Hpos | lia | lia].
Qed.

Lemma volume_product_witness :
  volume {| Dims.nbDims := 3; Dims.d := [128; 8; 768; 0; 0; 0; 0; 0] |}
  = Returns (product [128; 8; 768]).
Proof.
  apply (volume_product {| Dims.nbDims := 3; Dims.d := [128; 8; 768; 0; 0; 0; 0; 0] |}).
  - simpl. lia.
  - simpl. repeat constructor; lia.
  - vm_compute. discriminate.
Defined.

(** X6.  A zero extent makes the volume 0: when the extents in use are
    positive extents (whose product fits 64 bits) followed by a 0, [volume]
    returns 0 whatever the extents after the 0 are. *)
Theorem volume_zero_extent (dims : Dims.t) (before after : list Z) :
  0 <= Dims.nbDims dims <= Z.of_nat (length (Dims.d dims)) ->
  firstn (Z.to_nat (Dims.nbDims dims)) (Dims.d dims) = before ++ 0 :: after ->
  Forall (fun extent => 1 <= extent) before ->
  product before <= max_value int64_t ->
  volume dims = Returns 0.
Proof.
  intros Hn Hsplit Hpos Hmax. unfold volume.
  rewrite (dims_range_some dims Hn). cbn [defined bind]. rewrite Hsplit.
  rewrite accumulate_multiplies_app.
  rewrite accumulate_multiplies_product; [| exact Hpos | lia | lia].
  cbn [bind accumulate_multiplies].
  replace (1 * product before * 0) with 0 by lia.
  assert (Z0 : arith int64_t 0 = Returns 0) by reflexivity.
  rewrite Z0. cbn [bind]. apply accumulate_multiplies_zero.
Qed.

Lemma volume_zero_extent_witness :
  volume {| Dims.nbDims := 4; Dims.d := [4; 0; -1; 2147483647; 7; 7; 7; 7] |}
  = Returns 0.
Proof.
  apply (volume_zero_extent
           {| Dims.nbDims := 4; Dims.d := [4; 0; -1; 2147483647; 7; 7; 7; 7] |}
           [4] [-1; 2147483647]).
  - simpl. lia.
  - reflexivity.
  - repeat constructor; lia.
  - vm_compute. discriminate.
Defined.

(** *** Device memory transfer helpers *)

Lemma size_t_product (sizeof_T nbElem : Z) :
  0 <= sizeof_T * nbElem <= PTRDIFF_MAX ->
  wrap 64 (sizeof_T * nbElem) = sizeof_T * nbElem.
Proof.
  intros H. apply wrap_small. unfold PTRDIFF_MAX in H. lia.
Qed.

Lemma cudaMalloc_succeeds (size : Z) :
  size <= PTRDIFF_MAX -> cuda.cudaMalloc size = (cuda.cudaSuccess, size).
Proof.
  intros H. unfold cuda.cudaMalloc.
  destruct (Z.ltb_spec PTRDIFF_MAX size); [lia | reflexivity].
Qed.

Lemma cudaMemcpy_succeeds (room : Z) (src : list byte) (src_pos count_ : Z)
  (bytes : list byte) :
  count_ <= room ->
  read_bytes src src_pos count_ = Some bytes ->
  cuda.cudaMemcpy room src src_pos count_ = Returns (cuda.cudaSuccess, bytes).
Proof.
  intros Hroom Hread. unfold cuda.cudaMemcpy.
  destruct (Z.leb_spec count_ room); [| lia]. now rewrite Hread.
Qed.

Lemma write_bytes_some (m : list byte) (pos : Z) (bytes : list byte) :
  0 <= pos -> pos + Z.of_nat (length bytes) <= Z.of_nat (length m) ->
  write_bytes m pos bytes
  = Some (firstn (Z.to_nat pos) m ++ bytes
          ++ skipn (Z.to_nat pos + length bytes) m).
Proof.
  intros Hp Hfit. unfold write_bytes.
  destruct (Z.leb_spec 0 pos); [| lia].
  destruct (Z.leb_spec (pos + Z.of_nat (length bytes)) (Z.of_nat (length m)));
    [reflexivity | lia].
Qed.

Lemma read_bytes_middle (prefix payload suffix : list byte) (pos n : Z) :
  pos = Z.of_nat (length prefix) -> n = Z.of_nat (length payload) ->
  read_bytes (prefix ++ payload ++ suffix) pos n = Some payload.
Proof. intros -> ->. apply read_bytes_app. Qed.

(** The run of [deserToDev] on a cursor with the bytes behind it. *)
Lemma deserToDev_run (sizeof_T : Z) (buffer_ : cursor) (nbElem : Z)
  (bytes : list byte) :
  0 <= sizeof_T * nbElem <= PTRDIFF_MAX ->
  read_bytes (buffer buffer_) (position buffer_) (sizeof_T * nbElem) = Some bytes ->
  deserToDev sizeof_T buffer_ nbElem
  = ({| buffer := buffer buffer_;
        position := position buffer_ + sizeof_T * nbElem |}, Returns bytes).
Proof.
  intros Hlen Hread. unfold deserToDev.
  rewrite (size_t_product _ _ Hlen).
  rewrite cudaMalloc_succeeds by lia. cbn [PLUGIN_CUASSERT bind].
  rewrite (cudaMemcpy_succeeds _ _ _ _ bytes) by (lia || exact Hread).
  reflexivity.
Qed.

(** The run of [serFromDev] with enough device data and enough room. *)
Lemma serFromDev_run (sizeof_T : Z) (buffer_ : cursor) (data : cuda.device_ptr)
  (nbElem : Z) :
  0 <= sizeof_T * nbElem <= Z.of_nat (length data) ->
  0 <= position buffer_ ->
  position buffer_ + sizeof_T * nbElem <= Z.of_nat (length (buffer buffer_)) ->
  Z.of_nat (length (buffer buffer_)) <= PTRDIFF_MAX ->
  serFromDev sizeof_T buffer_ data nbElem
  = ({| buffer :=
          firstn (Z.to_nat (position buffer_)) (buffer buffer_)
          ++ firstn (Z.to_nat (sizeof_T * nbElem)) data
          ++ skipn (Z.to_nat (position buffer_ + sizeof_T * nbElem))
               (buffer buffer_);
        position := position buffer_ + sizeof_T * nbElem |}, Returns tt).
Proof.
  intros Hlen Hpos Hroom Hmax. unfold serFromDev.
  rewrite size_t_product by lia.
  assert (L : length (firstn (Z.to_nat (sizeof_T * nbElem)) data)
              = Z.to_nat (sizeof_T * nbElem)).
  { rewrite length_firstn. lia. }
  rewrite (cudaMemcpy_succeeds _ _ _ _
             (firstn (Z.to_nat (sizeof_T * nbElem)) data)); [| lia |].
  - cbn [PLUGIN_CUASSERT bind].
    rewrite write_bytes_some by (rewrite ?L; lia).
    cbn [defined]. rewrite L.
    replace (Z.to_nat (position buffer_) + Z.to_nat (sizeof_T * nbElem))%nat
      with (Z.to_nat (position buffer_ + sizeof_T * nbElem)) by lia.
    reflexivity.
  - rewrite read_bytes_some by lia. reflexivity.
Qed.

(** X7.  For a cursor inside a buffer that holds [sizeof(T) * nbElem] bytes
    from the cursor on, [deserToDev] returns a device array holding exactly
    these bytes and advances the cursor by exactly their number. *)
Theorem deserToDev_reads (sizeof_T : Z) (buffer_ : cursor) (nbElem : Z) :
  let len := sizeof_T * nbElem in
  0 <= len ->
  0 <= position buffer_ ->
  position buffer_ + len <= Z.of_nat (length (buffer buffer_)) ->
  Z.of_nat (length (buffer buffer_)) <= PTRDIFF_MAX ->
  deserToDev sizeof_T buffer_ nbElem
  = ({| buffer := buffer buffer_; position := position buffer_ + len |},
     Returns (firstn (Z.to_nat len)
                (skipn (Z.to_nat (position buffer_)) (buffer buffer_)))).
Proof.
  intros len Hlen Hpos Hin Hmax.
  apply deserToDev_run; [fold len; lia |].
  apply read_bytes_some; fold len; lia.
Qed.

Lemma deserToDev_reads_witness :
  deserToDev 2 {| buffer := [x0a; x0b; x0c; x0d; x0e; x0f]; position := 1 |} 2
  = ({| buffer := [x0a; x0b; x0c; x0d; x0e; x0f]; position := 1 + 2 * 2 |},
     Returns [x0b; x0c; x0d; x0e]).
Proof.
  apply (deserToDev_reads 2
           {| buffer := [x0a; x0b; x0c; x0d; x0e; x0f]; position := 1 |} 2).
  - lia.
  - simpl. lia.
  - simpl. lia.
  - simpl. unfold PTRDIFF_MAX. lia.
Defined.

(** X8.  What [serFromDev] writes, [deserToDev] reads back: after
    serializing [nbElem] elements of a device array at a cursor, deserializing
    [nbElem] elements from where that cursor stood returns a device array
    with the same [sizeof(T) * nbElem] bytes, and both calls leave the cursor
    at the same position. *)
Theorem serFromDev_deserToDev (sizeof_T : Z) (buffer_ : cursor)
  (data : cuda.device_ptr) (nbElem : Z) :
  let len := sizeof_T * nbElem in
  0 <= len <= Z.of_nat (length data) ->
  0 <= position buffer_ ->
  position buffer_ + len <= Z.of_nat (length (buffer buffer_)) ->
  Z.of_nat (length (buffer buffer_)) <= PTRDIFF_MAX ->
  exists written : cursor,
    serFromDev sizeof_T buffer_ data nbElem = (written, Returns tt)
    /\ position written = position buffer_ + len
    /\ deserToDev sizeof_T
         {| buffer := buffer written; position := position buffer_ |} nbElem
       = (written, Returns (firstn (Z.to_nat len) data)).
Proof.
  intros len Hlen Hpos Hroom Hmax.
  eexists. split; [apply serFromDev_run; fold len; lia |].
  cbn [buffer position]. fold len. split; [reflexivity |].
  assert (Lp : length (firstn (Z.to_nat (position buffer_)) (buffer buffer_))
               = Z.to_nat (position buffer_)).
  { rewrite length_firstn. lia. }
  assert (Ld : length (firstn (Z.to_nat len) data) = Z.to_nat len).
  { rewrite length_firstn. lia. }
  rewrite (deserToDev_run sizeof_T _ nbElem (firstn (Z.to_nat len) data)).
  - reflexivity.
  - fold len. lia.
  - cbn [buffer position]. fold len.
    apply read_bytes_middle; [rewrite Lp | rewrite Ld]; lia.
Qed.

Lemma serFromDev_deserToDev_witness :
  exists written : cursor,
    serFromDev 4 {| buffer := [x00; x00; x00; x00; x00; x00]; position := 2 |}
      [x11; x22; x33; x44; x55] 1 = (written, Returns tt)
    /\ position written = 2 + 4 * 1
    /\ deserToDev 4 {| buffer := buffer written; position := 2 |} 1
       = (written, Returns [x11; x22; x33; x44]).
Proof.
  apply (serFromDev_deserToDev 4
           {| buffer := [x00; x00; x00; x00; x00; x00]; position := 2 |}
           [x11; x22; x33; x44; x55] 1).
  - simpl. lia.
  - simpl. lia.
  - simpl. lia.
  - simpl. unfold PTRDIFF_MAX. lia.
Defined.

(** The three parts of a buffer after [bytes] were stored at [pos]. *)
Lemma stored_parts (m bytes : list byte) (pos : nat) :
  (pos + length bytes <= length m)%nat ->
  let m' := firstn pos m ++ bytes ++ skipn (pos + length bytes) m in
  length m' = length m
  /\ firstn pos m' = firstn pos m
  /\ firstn (pos + length bytes) m' = firstn pos m ++ bytes
  /\ skipn (pos + length bytes) m' = skipn (pos + length bytes) m.
Proof.
  intros Hfit m'.
  assert (Lp : length (firstn pos m) = pos) by (rewrite length_firstn; lia).
  assert (A : m' = (firstn pos m ++ bytes) ++ skipn (pos + length bytes) m).
  { unfold m'. now rewrite app_assoc. }
  assert (Lpb : length (firstn pos m ++ bytes) = (pos + length bytes)%nat).
  { rewrite length_app, Lp. reflexivity. }
  split; [| split; [| split]].
  - unfold m'. rewrite !length_app, Lp, length_skipn. lia.
  - unfold m'. rewrite firstn_app, Lp, Nat.sub_diag. simpl.
    rewrite app_nil_r. rewrite firstn_all2 by lia. reflexivity.
  - rewrite A. rewrite firstn_app, Lpb, Nat.sub_diag. simpl.
    rewrite app_nil_r. rewrite firstn_all2 by lia. reflexivity.
  - rewrite A. rewrite skipn_app, Lpb, Nat.sub_diag. simpl.
    rewrite skipn_all2 by lia. reflexivity.
Qed.

(** What a [serFromDev] that returned has done. *)
Lemma serFromDev_returns (sizeof_T : Z) (buffer_ : cursor)
  (data : cuda.device_ptr) (nbElem : Z) (written : cursor) :
  serFromDev sizeof_T buffer_ data nbElem = (written, Returns tt) ->
  let len := wrap 64 (sizeof_T * nbElem) in
  0 <= position buffer_
  /\ 0 <= len <= Z.of_nat (length data)
  /\ position buffer_ + len <= Z.of_nat (length (buffer buffer_))
  /\ written
     = {| buffer :=
            firstn (Z.to_nat (position buffer_)) (buffer buffer_)
            ++ firstn (Z.to_nat len) data
            ++ skipn (Z.to_nat (position buffer_) + Z.to_nat len)
                 (buffer buffer_);
          position := position buffer_ + len |}.
Proof.
  intros H. cbv zeta. set (len := wrap 64 (sizeof_T * nbElem)).
  unfold serFromDev, cuda.cudaMemcpy in H. fold len in H.
  destruct (Z.leb_spec len
              (Z.of_nat (length (buffer buffer_)) - position buffer_));
    [| discriminate].
  destruct (read_bytes data 0 len) as [bytes |] eqn:R; [| discriminate].
  cbn [PLUGIN_CUASSERT bind] in H.
  apply read_bytes_inv in R. destruct R as (_ & Hlen & Hdata & Hbytes & Lb).
  simpl in Hbytes.
  unfold write_bytes in H.
  destruct (Z.leb_spec 0 (position buffer_)); [| discriminate].
  destruct (Z.leb_spec (position buffer_ + Z.of_nat (length bytes))
              (Z.of_nat (length (buffer buffer_)))); [| discriminate].
  cbn [andb defined] in H. inversion H; subst written; clear H.
  replace (length bytes) with (Z.to_nat len) by lia. subst bytes.
  repeat split; lia.
Qed.

(** The run of [deserToDev] in terms of the [size_t] length it computes. *)
Lemma deserToDev_run_len (sizeof_T : Z) (buffer_ : cursor) (nbElem : Z)
  (bytes : list byte) :
  wrap 64 (sizeof_T * nbElem) <= PTRDIFF_MAX ->
  read_bytes (buffer buffer_) (position buffer_) (wrap 64 (sizeof_T * nbElem))
  = Some bytes ->
  deserToDev sizeof_T buffer_ nbElem
  = ({| buffer := buffer buffer_;
        position := position buffer_ + wrap 64 (sizeof_T * nbElem) |},
     Returns bytes).
Proof.
  intros Hlen Hread. unfold deserToDev.
  rewrite cudaMalloc_succeeds by lia. cbn [PLUGIN_CUASSERT bind].
  rewrite (cudaMemcpy_succeeds _ _ _ _ bytes) by (lia || exact Hread).
  reflexivity.
Qed.

(** X9.  [serFromDev] writes inside its range only: when it returns, the
    host buffer has the length it had, and the bytes before the cursor and
    those from the new cursor position on are the bytes that were there. *)
Theorem serFromDev_frame (sizeof_T : Z) (buffer_ : cursor)
  (data : cuda.device_ptr) (nbElem : Z) (written : cursor) :
  serFromDev sizeof_T buffer_ data nbElem = (written, Returns tt) ->
  length (buffer written) = length (buffer buffer_)
  /\ position buffer_ <= position written
  /\ firstn (Z.to_nat (position buffer_)) (buffer written)
     = firstn (Z.to_nat (position buffer_)) (buffer buffer_)
  /\ skipn (Z.to_nat (position written)) (buffer written)
     = skipn (Z.to_nat (position written)) (buffer buffer_).
Proof.
  intros H. apply serFromDev_returns in H. cbv zeta in H.
  destruct H as (Hpos & Hlen & Hroom & ->). cbn [buffer position].
  set (len := wrap 64 (sizeof_T * nbElem)) in *.
  assert (Lb : length (firstn (Z.to_nat len) data) = Z.to_nat len)
    by (rewrite length_firstn; lia).
  pose proof (stored_parts (buffer buffer_) (firstn (Z.to_nat len) data)
                (Z.to_nat (position buffer_))) as P.
  rewrite Lb in P. destruct P as (P1 & P2 & _ & P4); [lia |].
  split; [exact P1 |]. split; [lia |]. split; [exact P2 |].
  replace (Z.to_nat (position buffer_ + len))
    with (Z.to_nat (position buffer_) + Z.to_nat len)%nat by lia.
  exact P4.
Qed.

Lemma serFromDev_frame_witness :
  length (buffer (fst (serFromDev 2
            {| buffer := [x01; x02; x03; x04; x05]; position := 1 |}
            [xaa; xbb; xcc] 1)))
  = length [x01; x02; x03; x04; x05]
  /\ skipn 3 (buffer (fst (serFromDev 2
            {| buffer := [x01; x02; x03; x04; x05]; position := 1 |}
            [xaa; xbb; xcc] 1)))
     = [x04; x05].
Proof.
  destruct (serFromDev_frame 2
              {| buffer := [x01; x02; x03; x04; x05]; position := 1 |}
              [xaa; xbb; xcc] 1
              (fst (serFromDev 2
                      {| buffer := [x01; x02; x03; x04; x05]; position := 1 |}
                      [xaa; xbb; xcc] 1)))
    as (L & _ & _ & S).
  - reflexivity.
  - split; [exact L | exact S].
Defined.

(** X10.  Two arrays serialized one after the other are read back in the
    same order: after two [serFromDev] calls that returned, two [deserToDev]
    calls with the same element sizes and counts, started where the first
    write started, return the bytes of the first array and then those of the
    second, passing through the same cursor positions. *)
Theorem serFromDev_twice_deserToDev_twice (sizeof_A sizeof_B : Z)
  (start middle finish : cursor) (a b : cuda.device_ptr) (nbA nbB : Z) :
  Z.of_nat (length (buffer start)) <= PTRDIFF_MAX ->
  serFromDev sizeof_A start a nbA = (middle, Returns tt) ->
  serFromDev sizeof_B middle b nbB = (finish, Returns tt) ->
  exists between : cursor,
    deserToDev sizeof_A
      {| buffer := buffer finish; position := position start |} nbA
    = (between,
       Returns (firstn (Z.to_nat (position middle - position start)) a))
    /\ position between = position middle
    /\ deserToDev sizeof_B between nbB
       = (finish,
          Returns (firstn (Z.to_nat (position finish - position middle)) b)).
Proof.
  intros Hmax HA HB.
  apply serFromDev_returns in HA. cbv zeta in HA.
  destruct HA as (Hp0 & HlenA & HroomA & ->).
  apply serFromDev_returns in HB. cbv zeta in HB. cbn [buffer position] in HB.
  destruct HB as (_ & HlenB & HroomB & ->). cbn [buffer position].
  set (lenA := wrap 64 (sizeof_A * nbA)) in *.
  set (lenB := wrap 64 (sizeof_B * nbB)) in *.
  set (p0 := position start) in *. set (m0 := buffer start) in *.
  set (A := firstn (Z.to_nat lenA) a) in *.
  set (B := firstn (Z.to_nat lenB) b) in *.
  assert (LA : length A = Z.to_nat lenA) by (unfold A; rewrite length_firstn; lia).
  assert (LB : length B = Z.to_nat lenB) by (unfold B; rewrite length_firstn; lia).
  pose proof (stored_parts m0 A (Z.to_nat p0)) as P.
  rewrite LA in P. destruct P as (P1 & _ & P3 & _); [lia |].
  set (m1 := firstn (Z.to_nat p0) m0 ++ A
             ++ skipn (Z.to_nat p0 + Z.to_nat lenA) m0) in *.
  rewrite P1 in HroomB.
  replace (Z.to_nat (p0 + lenA)) with (Z.to_nat p0 + Z.to_nat lenA)%nat by lia.
  rewrite P3.
  set (rest := skipn (Z.to_nat p0 + Z.to_nat lenA + Z.to_nat lenB) m1).
  replace (p0 + lenA - p0) with lenA by lia.
  replace (p0 + lenA + lenB - (p0 + lenA)) with lenB by lia.
  fold A B.
  assert (Lp : length (firstn (Z.to_nat p0) m0) = Z.to_nat p0)
    by (rewrite length_firstn; lia).
  eexists. split; [| split].
  - apply deserToDev_run_len; [fold lenA; lia |].
    cbn [buffer position]. fold lenA.
    rewrite <- app_assoc.
    apply read_bytes_middle; [rewrite Lp | rewrite LA]; lia.
  - reflexivity.
  - rewrite (deserToDev_run_len sizeof_B _ nbB B).
    + cbn [buffer position]. fold lenA lenB. reflexivity.
    + fold lenB. lia.
    + cbn [buffer position]. fold lenA lenB.
      apply read_bytes_middle; [rewrite length_app, Lp, LA | rewrite LB]; lia.
Qed.

Lemma serFromDev_twice_deserToDev_twice_witness :
  exists between : cursor,
    deserToDev 2
      {| buffer := [x00; xa1; xa2; xb1; xb2; xb3; xb4; x00]; position := 1 |} 1
    = (between, Returns [xa1; xa2])
    /\ position between = 3
    /\ deserToDev 4 between 1
       = ({| buffer := [x00; xa1; xa2; xb1; xb2; xb3; xb4; x00]; position := 7 |},
          Returns [xb1; xb2; xb3; xb4]).
Proof.
  apply (serFromDev_twice_deserToDev_twice 2 4
           {| buffer := [x00; x00; x00; x00; x00; x00; x00; x00]; position := 1 |}
           {| buffer := [x00; xa1; xa2; x00; x00; x00; x00; x00]; position := 3 |}
           {| buffer := [x00; xa1; xa2; xb1; xb2; xb3; xb4; x00]; position := 7 |}
           [xa1; xa2] [xb1; xb2; xb3; xb4; xb5] 1 1).
  - simpl. unfold PTRDIFF_MAX. lia.
  - reflexivity.
  - reflexivity.
Defined.

(** What a [devToDev] that returned has produced. *)
Lemma devToDev_returns (sizeof_T : Z) (data : cuda.device_ptr) (nbElem : Z)
  (copy : cuda.device_ptr) :
  devToDev sizeof_T data nbElem = Returns copy ->
  let len := wrap 64 (sizeof_T * nbElem) in
  0 <= len <= Z.of_nat (length data)
  /\ copy = firstn (Z.to_nat len) data.
Proof.
  intros H. cbv zeta. set (len := wrap 64 (sizeof_T * nbElem)).
  unfold devToDev, cuda.cudaMalloc, cuda.cudaMemcpy in H. fold len in H.
  destruct (Z.ltb_spec PTRDIFF_MAX len); [discriminate |].
  cbn [PLUGIN_CUASSERT bind] in H.
  destruct (Z.leb_spec len len); [| lia].
  destruct (read_bytes data 0 len) as [bytes |] eqn:R; [| discriminate].
  cbn [PLUGIN_CUASSERT bind] in H. inversion H; subst copy; clear H.
  apply read_bytes_inv in R. destruct R as (_ & Hlen & Hdata & Hbytes & _).
  simpl in Hbytes. split; [lia | exact Hbytes].
Qed.

(** X11.  A device copy made by [devToDev] serializes like its original:
    when [devToDev] returned a copy of [nbElem] elements, [serFromDev] of
    [nbElem] elements of the copy and of the original end alike, with the
    same host buffer and cursor. *)
Theorem devToDev_serializes_alike (sizeof_T : Z) (data copy : cuda.device_ptr)
  (nbElem : Z) (buffer_ : cursor) :
  devToDev sizeof_T data nbElem = Returns copy ->
  serFromDev sizeof_T buffer_ copy nbElem
  = serFromDev sizeof_T buffer_ data nbElem.
Proof.
  intros H. apply devToDev_returns in H. cbv zeta in H.
  destruct H as (Hlen & ->).
  unfold serFromDev, cuda.cudaMemcpy.
  set (len := wrap 64 (sizeof_T * nbElem)) in *.
  destruct (Z.leb_spec len
              (Z.of_nat (length (buffer buffer_)) - position buffer_));
    [| reflexivity].
  rewrite !read_bytes_some by (rewrite ?length_firstn; lia).
  simpl skipn. rewrite firstn_firstn, Nat.min_id. reflexivity.
Qed.

Lemma devToDev_serializes_alike_witness :
  serFromDev 2 {| buffer := [x00; x00; x00]; position := 0 |} [x0a; x0b] 1
  = serFromDev 2 {| buffer := [x00; x00; x00]; position := 0 |}
      [x0a; x0b; x0c; x0d] 1.
Proof.
  apply (devToDev_serializes_alike 2 [x0a; x0b; x0c; x0d] [x0a; x0b] 1).
  reflexivity.
Defined.

(** *** copyToDevice *)

Section copy_to_device.

Variable half2float : half -> float.
Variable float2half : float -> half.

(** X12.  The size [getWeightsSize] computes is the size [copyToDevice]
    needs: after a conversion that returned, through either overload,
    [copyToDevice] with [getWeightsSize] of the object at its own type
    returns, and the device pointer then owns the whole converted buffer,
    byte for byte, whatever it owned before. *)
Theorem copyToDevice_converted (this : WeightsWithOwnership) (op : conversion)
  (this' : WeightsWithOwnership) (nbBytes : Z) (cudaWeights : cuda.device_ptr) :
  convert half2float float2half this op = (this', Returns tt) ->
  getWeightsSize this' (type this') = Returns nbBytes ->
  exists destBuf,
    values this' = Some destBuf
    /\ copyToDevice this' nbBytes cudaWeights = Returns destBuf.
Proof.
  intros Hconv Hsize. apply convert_returns in Hconv.
  destruct Hconv as (Ht & Hr & destBuf & Hv & Hl).
  exists destBuf. split; [exact Hv |].
  unfold getWeightsSize in Hsize. rewrite Ht in Hsize.
  apply arith_signed_returns in Hsize; [| reflexivity].
  destruct Hsize as [-> _].
  unfold copyToDevice. rewrite Hv.
  rewrite cudaMalloc_succeeds by lia. cbn [PLUGIN_CUASSERT bind].
  rewrite (cudaMemcpy_succeeds _ _ _ _ destBuf).
  - reflexivity.
  - lia.
  - rewrite read_bytes_some by lia. rewrite <- Hl, Nat2Z.id. simpl.
    now rewrite firstn_all.
Qed.

End copy_to_device.

Lemma copyToDevice_converted_witness :
  exists destBuf,
    values (fst (convert widen narrow (WeightsWithOwnership_ctor DataType.kINT8)
                   (Raw {| buffer := [x01; x02; x03; x04; x05]; position := 1 |}
                      1 DataType.kFLOAT)))
    = Some destBuf
    /\ copyToDevice
         (fst (convert widen narrow (WeightsWithOwnership_ctor DataType.kINT8)
                 (Raw {| buffer := [x01; x02; x03; x04; x05]; position := 1 |}
                    1 DataType.kFLOAT)))
         4 [xff]
       = Returns destBuf.
Proof.
  apply (copyToDevice_converted widen narrow
           (WeightsWithOwnership_ctor DataType.kINT8)
           (Raw {| buffer := [x01; x02; x03; x04; x05]; position := 1 |}
              1 DataType.kFLOAT)).
  - reflexivity.
  - reflexivity.
Defined.

(** *** WeightsWithOwnership, continued *)

Lemma convertAndCopy_same_type_witness :
  convertAndCopy widen narrow (WeightsWithOwnership_ctor DataType.kINT8)
    {| type := DataType.kHALF; values := Some [x00; x3c; x00; xc0]; count := 2 |}
    DataType.kHALF
  = ({| type := DataType.kHALF; values := Some [x00; x3c; x00; xc0]; count := 2 |},
     Returns tt).
Proof.
  apply (convertAndCopy_same_type widen narrow
           (WeightsWithOwnership_ctor DataType.kINT8)
           {| type := DataType.kHALF; values := Some [x00; x3c; x00; xc0];
              count := 2 |} [x00; x3c; x00; xc0]).
  - right. reflexivity.
  - reflexivity.
  - reflexivity.
  - simpl. unfold PTRDIFF_MAX. lia.
Defined.

Lemma convertAndCopy_total_witness :
  exists d,
    convertAndCopy widen narrow (WeightsWithOwnership_ctor DataType.kINT8)
      {| type := DataType.kHALF; values := Some [x00; x3c; x00; xc0]; count := 2 |}
      DataType.kFLOAT
    = ({| type := DataType.kFLOAT; values := Some d; count := 2 |}, Returns tt).
Proof.
  apply (convertAndCopy_total widen narrow
           (WeightsWithOwnership_ctor DataType.kINT8)
           {| type := DataType.kHALF; values := Some [x00; x3c; x00; xc0];
              count := 2 |} DataType.kFLOAT [x00; x3c; x00; xc0]).
  - left. reflexivity.
  - right. reflexivity.
  - reflexivity.
  - simpl. unfold INT_MAX. lia.
  - reflexivity.
Defined.

Lemma convertAndCopy_raw_round_trip_witness :
  convertAndCopy_raw (WeightsWithOwnership_ctor DataType.kINT8)
    {| buffer := [x07] ++ [x00; x00; x80; x3f] ++ [x09; x09];
       position := Z.of_nat (length [x07]) |} 1 DataType.kFLOAT
  = ({| type := DataType.kFLOAT; values := Some [x00; x00; x80; x3f];
        count := to_signed 64 1 |},
     {| buffer := [x07] ++ [x00; x00; x80; x3f] ++ [x09; x09];
        position := Z.of_nat (length [x07])
                    + Z.of_nat (length [x00; x00; x80; x3f]) |},
     Returns tt).
Proof.
  apply (convertAndCopy_raw_round_trip (WeightsWithOwnership_ctor DataType.kINT8)
           [x07] [x00; x00; x80; x3f] [x09; x09] 1 DataType.kFLOAT).
  - lia.
  - reflexivity.
  - simpl. unfold PTRDIFF_MAX. lia.
Defined.

(** X17.  Two weight fields serialized back to back are read one after the
    other: on a buffer holding a first payload of [c1 * elementSize(t1)]
    bytes directly followed by a second of [c2 * elementSize(t2)] bytes, the
    raw-byte overload started at the first payload returns it, and called
    again with the cursor it left returns the second and ends behind it. *)
Theorem convertAndCopy_raw_twice (this1 this2 : WeightsWithOwnership)
  (prefix payload1 payload2 suffix : list byte)
  (c1 c2 : Z) (t1 t2 : DataType.t) :
  let serialized := prefix ++ payload1 ++ payload2 ++ suffix in
  0 <= c1 -> 0 <= c2 ->
  Z.of_nat (length payload1) = c1 * getElementSize t1 ->
  Z.of_nat (length payload2) = c2 * getElementSize t2 ->
  Z.of_nat (length serialized) <= PTRDIFF_MAX ->
  exists middle : cursor,
    convertAndCopy_raw this1
      {| buffer := serialized; position := Z.of_nat (length prefix) |} c1 t1
    = ({| type := t1; values := Some payload1; count := to_signed 64 c1 |},
       middle, Returns tt)
    /\ convertAndCopy_raw this2 middle c2 t2
       = ({| type := t2; values := Some payload2; count := to_signed 64 c2 |},
          {| buffer := serialized;
             position := Z.of_nat (length prefix) + Z.of_nat (length payload1)
                         + Z.of_nat (length payload2) |},
          Returns tt).
Proof.
  intros serialized Hc1 Hc2 Hl1 Hl2 Hmax.
  assert (Hlen : length serialized
                 = (length prefix + length payload1 + length payload2
                    + length suffix)%nat).
  { unfold serialized. rewrite !length_app. lia. }
  eexists. split.
  - rewrite (convertAndCopy_raw_run this1 _ c1 t1 payload1);
      [reflexivity | exact Hc1 | lia |].
    cbn [buffer position]. rewrite <- Hl1. apply read_bytes_app.
  - rewrite (convertAndCopy_raw_run this2 _ c2 t2 payload2);
      [| exact Hc2 | lia |].
    + cbn [buffer position]. rewrite <- Hl1, <- Hl2. reflexivity.
    + cbn [buffer position]. rewrite <- Hl1, <- Hl2.
      unfold serialized. rewrite (app_assoc prefix payload1).
      apply read_bytes_middle; [rewrite length_app; lia | reflexivity].
Qed.

Lemma convertAndCopy_raw_twice_witness :
  exists middle : cursor,
    convertAndCopy_raw (WeightsWithOwnership_ctor DataType.kINT8)
      {| buffer := [x07] ++ [x00; x3c] ++ [x01; x02; x03; x04] ++ [x09];
         position := Z.of_nat (length [x07]) |} 1 DataType.kHALF
    = ({| type := DataType.kHALF; values := Some [x00; x3c];
          count := to_signed 64 1 |}, middle, Returns tt)
    /\ convertAndCopy_raw (WeightsWithOwnership_ctor DataType.kINT8) middle
         1 DataType.kINT32
       = ({| type := DataType.kINT32; values := Some [x01; x02; x03; x04];
             count := to_signed 64 1 |},
          {| buffer := [x07] ++ [x00; x3c] ++ [x01; x02; x03; x04] ++ [x09];
             position := Z.of_nat (length [x07]) + Z.of_nat (length [x00; x3c])
                         + Z.of_nat (length [x01; x02; x03; x04]) |},
          Returns tt).
Proof.
  apply (convertAndCopy_raw_twice (WeightsWithOwnership_ctor DataType.kINT8)
           (WeightsWithOwnership_ctor DataType.kINT8)
           [x07] [x00; x3c] [x01; x02; x03; x04] [x09]
           1 1 DataType.kHALF DataType.kINT32).
  - lia.
  - lia.
  - reflexivity.
  - reflexivity.
  - simpl. unfold PTRDIFF_MAX. lia.
Defined.

(** The raw-byte overload is [noexcept]: it lets no exception out. *)
Lemma noexcept_no_throw {A : Type} (m : outcome A) (e : exception) :
  noexcept m <> Throws e.
Proof. destruct m; discriminate. Qed.

Lemma convertAndCopy_raw_no_throw (this : WeightsWithOwnership)
  (srcBuf : cursor) (count_ : Z) (type_ : DataType.t) (e : exception) :
  snd (convertAndCopy_raw this srcBuf count_ type_) <> Throws e.
Proof.
  unfold convertAndCopy_raw.
  match goal with
  | |- snd (match ?X with _ => _ end) <> _ => destruct X as [[nb d] | e0 | |] eqn:N
  end; simpl; try discriminate.
  now apply noexcept_no_throw in N.
Qed.

Section conversion_errors.

Variable half2float : half -> float.
Variable float2half : float -> half.


End conversion_errors.


(** *** There and back through [float] *)

Section half_float_half.

Variable half2float : half -> float.
Variable float2half : float -> half.

Lemma float2half_half2float_elements (n : nat) (s d : list byte) :
  Forall (fun h => float2half (half2float h) = h) (halves (firstn (2 * n) s)) ->
  half2float_loop half2float n s = Some d ->
  float2half_loop float2half n d = Some (firstn (2 * n) s).
Proof.
  revert s d. induction n as [| n IH]; intros s d Hid H; simpl in H.
  - inversion H. reflexivity.
  - destruct s as [| b0 [| b1 s']]; try discriminate.
    replace (2 * S n)%nat with (S (S (2 * n))) in * by lia.
    cbn [firstn halves] in Hid. inversion Hid as [| h l Hh Hrest]; subst.
    destruct (half2float_loop half2float n s') as [d' |] eqn:E; [| discriminate].
    destruct (half2float (b0, b1)) as [[[f0 f1] f2] f3].
    inversion H; subst d. cbn [float2half_loop firstn].
    rewrite (IH _ _ Hrest E), Hh. reflexivity.
Qed.

(** X21.  Widening a [kHALF] buffer to [kFLOAT] and converting the result
    back to [kHALF] returns the original bytes, count and type, provided
    [__float2half] undoes [__half2float] on each element the buffer holds
    (and the buffer holds its [count] elements, at most [INT_MAX]). *)
Theorem half_float_half_round_trip (this this2 : WeightsWithOwnership)
  (src : Weights) (m : list byte) :
  type src = DataType.kHALF ->
  values src = Some m ->
  Z.of_nat (length m) = count src * 2 ->
  count src <= INT_MAX ->
  Forall (fun h => float2half (half2float h) = h) (halves m) ->
  exists widened : WeightsWithOwnership,
    convertAndCopy half2float float2half this src DataType.kFLOAT
    = (widened, Returns tt)
    /\ type widened = DataType.kFLOAT
    /\ convertAndCopy half2float float2half this2 widened DataType.kHALF
       = ({| type := DataType.kHALF; values := Some m; count := count src |},
          Returns tt).
Proof.
  intros Ht Hv Hl Hc Hid.
  assert (HI : INT_MAX = 2147483647) by reflexivity.
  assert (HP : PTRDIFF_MAX = 9223372036854775807) by reflexivity.
  assert (Hcount : int_counter_reaches (count src) = Returns tt).
  { unfold int_counter_reaches.
    destruct (Z.ltb_spec INT_MAX (count src)); [lia | reflexivity]. }
  destruct (half2float_loop_total half2float (Z.to_nat (count src)) m)
    as [d E]; [lia |].
  assert (F : float2half_loop float2half (Z.to_nat (count src)) d = Some m).
  { rewrite (float2half_half2float_elements _ m d).
    - rewrite firstn_all2 by lia. reflexivity.
    - rewrite firstn_all2 by lia. exact Hid.
    - exact E. }
  exists {| type := DataType.kFLOAT; values := Some d; count := count src |}.
  split; [| split; [reflexivity |]].
  - unfold convertAndCopy. rewrite Ht, Hv.
    cbn [DataType.eqb PLUGIN_ASSERT pointee].
    rewrite new_array_in_range by (unfold sizeof_float; lia).
    cbn [bind]. rewrite Hcount. cbn [bind]. rewrite E. reflexivity.
  - unfold convertAndCopy. cbn [type values count].
    cbn [DataType.eqb PLUGIN_ASSERT pointee].
    rewrite new_array_in_range by (unfold sizeof_half; lia).
    cbn [bind]. rewrite Hcount. cbn [bind]. rewrite F. reflexivity.
Qed.

End half_float_half.

Lemma half_float_half_round_trip_witness :
  exists widened : WeightsWithOwnership,
    convertAndCopy widen narrow (WeightsWithOwnership_ctor DataType.kINT8)
      {| type := DataType.kHALF; values := Some [x00; x3c; x00; xc0]; count := 2 |}
      DataType.kFLOAT
    = (widened, Returns tt)
    /\ type widened = DataType.kFLOAT
    /\ convertAndCopy widen narrow (WeightsWithOwnership_ctor DataType.kINT8)
         widened DataType.kHALF
       = ({| type := DataType.kHALF; values := Some [x00; x3c; x00; xc0];
             count := 2 |}, Returns tt).
Proof.
  apply (half_float_half_round_trip widen narrow
           (WeightsWithOwnership_ctor DataType.kINT8)
           (WeightsWithOwnership_ctor DataType.kINT8)
           {| type := DataType.kHALF; values := Some [x00; x3c; x00; xc0];
              count := 2 |} [x00; x3c; x00; xc0]).
  - reflexivity.
  - reflexivity.
  - reflexivity.
  - simpl. unfold INT_MAX. lia.
  - simpl. repeat constructor.
Defined.

(** *** fieldTypeToDataType and the element sizes *)

(** X22.  Every data type [fieldTypeToDataType] returns has the element
    size its field type names (4 bytes for the 32-bit, 2 for the 16-bit and
    1 for the 8-bit field types): [getElementSize] is never 0 on a mapped
    type. *)
Theorem fieldTypeToDataType_element_size (ftype : PluginFieldType.t)
  (t : DataType.t) :
  fieldTypeToDataType ftype = Returns t ->
  getElementSize t
  = match ftype with
    | PluginFieldType.kFLOAT32 | PluginFieldType.kINT32 => 4
    | PluginFieldType.kFLOAT16 => 2
    | _ => 1
    end
  /\ 0 < getElementSize t.
Proof.
  destruct ftype; simpl; intros H; inversion H; subst; simpl; split; lia.
Qed.

Lemma fieldTypeToDataType_element_size_witness :
  getElementSize DataType.kHALF = 2 /\ 0 < getElementSize DataType.kHALF.
Proof.
  apply (fieldTypeToDataType_element_size PluginFieldType.kFLOAT16 DataType.kHALF).
  reflexivity.
Defined.

(** *** CublasConfigHelper, continued *)

Lemma CublasConfigHelper_ctor_frame (lib : library) (handle h : cublasHandle_t)
  (helper : CublasConfigHelper) (lib1 : library) :
  CublasConfigHelper_ctor lib handle = Returns (helper, lib1) ->
  cublas helper = handle /\ (h <> handle -> lib1 h = lib h).
Proof.
  unfold CublasConfigHelper_ctor. simpl. intros H. inversion H; subst.
  split; [reflexivity |]. intros N. simpl. now rewrite !update_other.
Qed.

(** X23.  The guard touches its own handle only: every other handle has,
    when the body starts, the context it had before the guard, and after
    the scope the context the body left it with. *)
Theorem guarded_scope_frame (body : library -> library * exit)
  (lib : library) (handle other : cublasHandle_t) :
  other <> handle ->
  exists helper lib1 lib' how,
    CublasConfigHelper_ctor lib handle = Returns (helper, lib1)
    /\ lib1 other = lib other
    /\ guarded_scope body lib handle = Returns (lib', how)
    /\ lib' other = fst (body lib1) other.
Proof.
  intros N.
  destruct (CublasConfigHelper_ctor_returns lib handle)
    as (helper & lib1 & Hctor & _).
  destruct (CublasConfigHelper_ctor_frame lib handle other helper lib1 Hctor)
    as [Hh Hframe].
  exists helper, lib1,
    (CublasConfigHelper_dtor helper (fst (body lib1))), (snd (body lib1)).
  split; [exact Hctor |]. split; [now apply Hframe |]. split.
  - unfold guarded_scope. rewrite Hctor. simpl.
    destruct (body lib1) as [lib2 how]. reflexivity.
  - apply CublasConfigHelper_dtor_frame. now rewrite Hh.
Qed.

Lemma guarded_scope_frame_witness :
  exists helper lib1 lib' how,
    CublasConfigHelper_ctor
      (fun _ => {| pointerMode := CUBLAS_POINTER_MODE_DEVICE;
                   mathMode := CUBLAS_DEFAULT_MATH |}) 0%nat
    = Returns (helper, lib1)
    /\ lib1 1%nat
       = {| pointerMode := CUBLAS_POINTER_MODE_DEVICE;
            mathMode := CUBLAS_DEFAULT_MATH |}
    /\ guarded_scope (fun l => (l, Normal))
         (fun _ => {| pointerMode := CUBLAS_POINTER_MODE_DEVICE;
                      mathMode := CUBLAS_DEFAULT_MATH |}) 0%nat
       = Returns (lib', how)
    /\ lib' 1%nat = fst ((fun l : library => (l, Normal)) lib1) 1%nat.
Proof.
  apply (guarded_scope_frame (fun l => (l, Normal))
           (fun _ => {| pointerMode := CUBLAS_POINTER_MODE_DEVICE;
                        mathMode := CUBLAS_DEFAULT_MATH |}) 0%nat 1%nat).
  discriminate.
Defined.

(** *** Element by element *)

Section element_by_element.

Variable half2float : half -> float.
Variable float2half : float -> half.

Lemma half2float_loop_elements (n : nat) (s d : list byte) :
  half2float_loop half2float n s = Some d ->
  d = flat_map (fun h => float_bytes (half2float h)) (halves (firstn (2 * n) s)).
Proof.
  revert s d. induction n as [| n IH]; intros s d H; simpl in H.
  - inversion H. reflexivity.
  - destruct s as [| b0 [| b1 s']]; try discriminate.
    replace (2 * S n)%nat with (S (S (2 * n))) by lia.
    cbn [firstn halves flat_map].
    destruct (half2float_loop half2float n s') as [d' |] eqn:E; [| discriminate].
    rewrite <- (IH _ _ E).
    destruct (half2float (b0, b1)) as [[[f0 f1] f2] f3].
    inversion H. reflexivity.
Qed.

Lemma float2half_loop_elements (n : nat) (s d : list byte) :
  float2half_loop float2half n s = Some d ->
  d = flat_map (fun f => half_bytes (float2half f)) (floats (firstn (4 * n) s)).
Proof.
  revert s d. induction n as [| n IH]; intros s d H; simpl in H.
  - inversion H. reflexivity.
  - destruct s as [| b0 [| b1 [| b2 [| b3 s']]]]; try discriminate.
    replace (4 * S n)%nat with (S (S (S (S (4 * n))))) by lia.
    cbn [firstn floats flat_map].
    destruct (float2half_loop float2half n s') as [d' |] eqn:E; [| discriminate].
    rewrite <- (IH _ _ E).
    destruct (float2half (b0, b1, b2, b3)) as [h0 h1].
    inversion H. reflexivity.
Qed.

(** X16.  Converting a [kHALF] source to [kFLOAT] converts element by
    element, in order: the new buffer is the concatenation of the bytes of
    [__half2float] of each [half] of the source, and nothing else. *)
Theorem convertAndCopy_half_to_float (this : WeightsWithOwnership)
  (src : Weights) (m : list byte) :
  type src = DataType.kHALF ->
  values src = Some m ->
  Z.of_nat (length m) = count src * 2 ->
  count src <= INT_MAX ->
  convertAndCopy half2float float2half this src DataType.kFLOAT
  = ({| type := DataType.kFLOAT;
        values := Some (flat_map (fun h => float_bytes (half2float h)) (halves m));
        count := count src |}, Returns tt).
Proof.
  intros Ht Hv Hl Hc.
  assert (HI : INT_MAX = 2147483647) by reflexivity.
  assert (HP : PTRDIFF_MAX = 9223372036854775807) by reflexivity.
  destruct (half2float_loop_total half2float (Z.to_nat (count src)) m)
    as [d E]; [lia |].
  pose proof (half2float_loop_elements _ _ _ E) as D.
  rewrite firstn_all2 in D by lia.
  unfold convertAndCopy. rewrite Ht, Hv.
  cbn [DataType.eqb PLUGIN_ASSERT pointee].
  rewrite new_array_in_range by (unfold sizeof_float; lia).
  cbn [bind]. unfold int_counter_reaches.
  destruct (Z.ltb_spec INT_MAX (count src)); [lia |].
  cbn [bind]. rewrite E, D. reflexivity.
Qed.

(** X14.  Converting a [kFLOAT] source to [kHALF] converts element by
    element, in order: the new buffer is the concatenation of the bytes of
    [__float2half] of each [float] of the source, and nothing else. *)
Theorem convertAndCopy_float_to_half (this : WeightsWithOwnership)
  (src : Weights) (m : list byte) :
  type src = DataType.kFLOAT ->
  values src = Some m ->
  Z.of_nat (length m) = count src * 4 ->
  count src <= INT_MAX ->
  convertAndCopy half2float float2half this src DataType.kHALF
  = ({| type := DataType.kHALF;
        values := Some (flat_map (fun f => half_bytes (float2half f)) (floats m));
        count := count src |}, Returns tt).
Proof.
  intros Ht Hv Hl Hc.
  assert (HI : INT_MAX = 2147483647) by reflexivity.
  assert (HP : PTRDIFF_MAX = 9223372036854775807) by reflexivity.
  destruct (float2half_loop_total float2half (Z.to_nat (count src)) m)
    as [d E]; [lia |].
  pose proof (float2half_loop_elements _ _ _ E) as D.
  rewrite firstn_all2 in D by lia.
  unfold convertAndCopy. rewrite Ht, Hv.
  cbn [DataType.eqb PLUGIN_ASSERT pointee].
  rewrite new_array_in_range by (unfold sizeof_half; lia).
  cbn [bind]. unfold int_counter_reaches.
  destruct (Z.ltb_spec INT_MAX (count src)); [lia |].
  cbn [bind]. rewrite E, D. reflexivity.
Qed.

End element_by_element.

Lemma convertAndCopy_half_to_float_witness :
  convertAndCopy widen narrow (WeightsWithOwnership_ctor DataType.kINT8)
    {| type := DataType.kHALF; values := Some [x00; x3c; x00; xc0]; count := 2 |}
    DataType.kFLOAT
  = ({| type := DataType.kFLOAT;
        values := Some (flat_map (fun h => float_bytes (widen h))
                          (halves [x00; x3c; x00; xc0]));
        count := 2 |}, Returns tt).
Proof.
  apply (convertAndCopy_half_to_float widen narrow
           (WeightsWithOwnership_ctor DataType.kINT8)
           {| type := DataType.kHALF; values := Some [x00; x3c; x00; xc0];
              count := 2 |} [x00; x3c; x00; xc0]).
  - reflexivity.
  - reflexivity.
  - reflexivity.
  - simpl. unfold INT_MAX. lia.
Defined.

Lemma convertAndCopy_float_to_half_witness :
  convertAndCopy widen narrow (WeightsWithOwnership_ctor DataType.kINT8)
    {| type := DataType.kFLOAT; values := Some [x00; x00; x80; x3f]; count := 1 |}
    DataType.kHALF
  = ({| type := DataType.kHALF;
        values := Some (flat_map (fun f => half_bytes (narrow f))
                          (floats [x00; x00; x80; x3f]));
        count := 1 |}, Returns tt).
Proof.
  apply (convertAndCopy_float_to_half widen narrow
           (WeightsWithOwnership_ctor DataType.kINT8)
           {| type := DataType.kFLOAT; values := Some [x00; x00; x80; x3f];
              count := 1 |} [x00; x00; x80; x3f]).
  - reflexivity.
  - reflexivity.
  - reflexivity.
  - simpl. unfold INT_MAX. lia.
Defined.

(* ===================================================================== *)
(** ** Half precision and back *)
(* ===================================================================== *)

Import cuda_fp16.

(** The intrinsics on some numbers: 1, 0.1 (which is rounded), the largest
    binary16 number 65504, the largest binary32 number below 65520, 65520
    itself (which overflows), the smallest positive binary16 number
    [2^-24], half of it (a tie, rounded to the even neighbour 0) and the
    binary32 number after that. *)
Example float2half_values :
  __float2half (x00, x00, x80, x3f) = (x00, x3c)
  /\ __float2half (xcd, xcc, xcc, x3d) = (x66, x2e)
  /\ __float2half (x00, xe0, x7f, x47) = (xff, x7b)
  /\ __float2half (xff, xef, x7f, x47) = (xff, x7b)
  /\ __float2half (x00, xf0, x7f, x47) = (x00, x7c)
  /\ __float2half (x00, x00, x80, x33) = (x01, x00)
  /\ __float2half (x00, x00, x00, x33) = (x00, x00)
  /\ __float2half (x01, x00, x00, x33) = (x01, x00).
Proof. repeat split; vm_compute; reflexivity. Qed.

Example half2float_values :
  __half2float (x00, x3c) = (x00, x00, x80, x3f)
  /\ __half2float (x66, x2e) = (x00, xc0, xcc, x3d)
  /\ __half2float (xff, x7b) = (x00, xe0, x7f, x47)
  /\ __half2float (x00, x7c) = (x00, x00, x80, x7f)
  /\ __half2float (x01, x00) = (x00, x00, x80, x33).
Proof. repeat split; vm_compute; reflexivity. Qed.

(** *** Rounding to binary16 *)












(** *** Bit patterns *)








Section formats.

Variables mw ew : Z.
Hypothesis mw_pos : 0 < mw.
Hypothesis ew_pos : 0 < ew.






End formats.

(** *** Widening to binary32 is exact *)









(** *** One element there and back *)







(** *** Buffers there and back *)





Section runs.

Variable half2float : half -> float.
Variable float2half : float -> half.





End runs.



